(** * Industrial CANbus data analyzer: the frame codec of [can_protocol.py]

    A shallow embedding of the protocol module: the CAN identifiers and
    fault masks, the [MotorTelemetry] and [DecodedFrame] data classes, the
    six encoders used by node A and [decode_frame] used by node B.

    Python values are modelled as follows.
    - [int] is [Z]; [&] is [Z.land], [|] is [Z.lor].
    - [bytes] is [list byte]; [data[:2]] is [firstn 2 data].
    - [float] is IEEE 754 binary64, as [spec_float] with [prec = 53] and
      [emax = 1024]; [*] and [/] are the correctly rounded [SFmul] and
      [SFdiv] of the standard library.
    - a raised exception is the [Raise] case of [result]. *)

From Stdlib Require Import ZArith List String Bool Lia QArith Qabs Qpower Lqa.
From Stdlib Require Import Strings.Byte Floats.SpecFloat.
From Stdlib Require Import Ascii DecimalString.
Import ListNotations.

Local Open Scope string_scope.
Local Open Scope Z_scope.

(** ** Exceptions *)

Inductive exn : Type :=
| StructError
| IndexError
| ValueError
| OverflowError.

Inductive result (A : Type) : Type :=
| Ok (a : A)
| Raise (e : exn).

Arguments Ok {A} a.
Arguments Raise {A} e.

Definition bind {A B : Type} (r : result A) (k : A -> result B) : result B :=
  match r with
  | Ok a => k a
  | Raise e => Raise e
  end.

Notation "x <- r ;; k" := (bind r (fun x => k))
  (at level 61, r at next level, right associativity).

(** ** Bytes *)

Definition byte_to_Z (b : byte) : Z := Z.of_N (Byte.to_N b).

(** [bytes([n])] for [n] already known to be in [range(256)]. *)
Definition byte_of_Z (n : Z) : byte :=
  match Byte.of_N (Z.to_N n) with
  | Some b => b
  | None => x00
  end.

(** ** The [struct] module, big-endian 16-bit formats *)

Module struct.

(** [struct.pack(">H", val)] *)
Definition pack_H (val : Z) : result (list byte) :=
  if (0 <=? val) && (val <=? 65535)
  then Ok [byte_of_Z (val / 256); byte_of_Z (val mod 256)]
  else Raise StructError.

(** [struct.pack(">h", val)]: two's complement on 16 bits. *)
Definition pack_h (val : Z) : result (list byte) :=
  if (-32768 <=? val) && (val <=? 32767)
  then let u := val mod 65536 in
       Ok [byte_of_Z (u / 256); byte_of_Z (u mod 256)]
  else Raise StructError.

(** [struct.unpack(">H", buf)[0]]: the buffer must hold exactly 2 bytes. *)
Definition unpack_H (buf : list byte) : result Z :=
  match buf with
  | [b0; b1] => Ok (256 * byte_to_Z b0 + byte_to_Z b1)
  | _ => Raise StructError
  end.

(** [struct.unpack(">h", buf)[0]] *)
Definition unpack_h (buf : list byte) : result Z :=
  match buf with
  | [b0; b1] =>
      let u := 256 * byte_to_Z b0 + byte_to_Z b1 in
      Ok (if 32768 <=? u then u - 65536 else u)
  | _ => Raise StructError
  end.

End struct.

(** ** Python floats *)

Definition float := spec_float.

Definition fmul : float -> float -> float := SFmul 53 1024.
Definition fdiv : float -> float -> float := SFdiv 53 1024.

(** [float(n)] for an [int] (used here on 16-bit integers only, where the
    conversion is exact). *)
Definition float_of_int (n : Z) : float := binary_normalize 53 1024 n 0 false.

(** [int(x)] for a [float]: truncation toward zero; [nan] raises
    [ValueError] and the infinities raise [OverflowError]. *)
Definition int_of_float (x : float) : result Z :=
  match x with
  | S754_nan => Raise ValueError
  | S754_infinity _ => Raise OverflowError
  | S754_zero _ => Ok 0
  | S754_finite s m e =>
      let mag := match e with
                 | Zneg p => Zpos m / 2 ^ Zpos p
                 | _ => Zpos m * 2 ^ e
                 end in
      Ok (if s then - mag else mag)
  end.

(** The rational number a finite float stands for (0 for the others). *)
Definition F2Q (x : float) : Q :=
  match x with
  | S754_finite s m e => inject_Z (if s then Zneg m else Zpos m) * 2 ^ e
  | _ => 0
  end%Q.

(** [n] is [q] truncated toward zero. *)
Definition is_trunc (q : Q) (n : Z) : Prop :=
  ((0 <= q -> inject_Z n <= q < inject_Z n + 1)
   /\ (q <= 0 -> inject_Z n - 1 < q <= inject_Z n))%Q.

(** [k] is an integer nearest to [q]. *)
Definition nearest_integer (q : Q) (k : Z) : Prop :=
  (Qabs (q - inject_Z k) <= 1 # 2)%Q.

Definition is_finite (x : float) : bool :=
  match x with
  | S754_zero _ | S754_finite _ _ _ => true
  | _ => false
  end.

(** ** CAN identifiers and fault masks *)

Definition CAN_ID_RPM : Z := 0x100.
Definition CAN_ID_TEMP : Z := 0x101.
Definition CAN_ID_TORQUE : Z := 0x102.
Definition CAN_ID_VOLTAGE : Z := 0x103.
Definition CAN_ID_CURRENT : Z := 0x104.
Definition CAN_ID_ERROR : Z := 0x1FF.

Definition ERROR_OVERHEAT : Z := 1.
Definition ERROR_OVERCURRENT : Z := 2.
Definition ERROR_UNDERVOLTAGE : Z := 4.
Definition ERROR_COMM_LOSS : Z := 8.
Definition ERROR_ENCODER : Z := 16.

(** Python truth value of an [int]. *)
Definition truthy (n : Z) : bool := negb (n =? 0).

(** [errors.append(name)] guarded by [if cond:]. *)
Definition append_if (cond : bool) (name : string) (errors : list string)
  : list string :=
  if cond then errors ++ [name] else errors.

(** ** Data classes *)

Record MotorTelemetry : Type := {
  rpm : option float;
  temp_c : option float;
  torque_nm : option float;
  voltage_v : option float;
  current_a : option float;
  error_flags : Z;
  timestamp : float
}.

Definition active_errors (self : MotorTelemetry) : list string :=
  let errors := [] in
  let errors := append_if (truthy (Z.land (error_flags self) ERROR_OVERHEAT))
                          "AŞIRI ISINMA" errors in
  let errors := append_if (truthy (Z.land (error_flags self) ERROR_OVERCURRENT))
                          "AŞIRI AKIM" errors in
  let errors := append_if (truthy (Z.land (error_flags self) ERROR_UNDERVOLTAGE))
                          "DÜŞÜK GERİLİM" errors in
  let errors := append_if (truthy (Z.land (error_flags self) ERROR_COMM_LOSS))
                          "İLETİŞİM KAYBI" errors in
  let errors := append_if (truthy (Z.land (error_flags self) ERROR_ENCODER))
                          "ENCODER HATASI" errors in
  errors.

Record DecodedFrame : Type := {
  can_id : Z;
  raw_bytes : list byte;
  signal : string;
  value : float;
  unit : string;
  is_error : bool;
  error_list : list string
}.

(** [DecodedFrame(can_id, data, signal, value, unit)] with the defaults
    [is_error=False] and a fresh empty [error_list]. *)
Definition mkFrame (i : Z) (data : list byte) (sig : string) (v : float)
  (u : string) : DecodedFrame :=
  {| can_id := i; raw_bytes := data; signal := sig; value := v; unit := u;
     is_error := false; error_list := [] |}.

(** [DecodedFrame(can_id, data, signal, value, unit, is_error=True)] *)
Definition mkFrame_error (i : Z) (data : list byte) (sig : string) (v : float)
  (u : string) : DecodedFrame :=
  {| can_id := i; raw_bytes := data; signal := sig; value := v; unit := u;
     is_error := true; error_list := [] |}.

(** The attribute assignment [frame.error_list = errors]. *)
Definition set_error_list (frame : DecodedFrame) (errors : list string)
  : DecodedFrame :=
  {| can_id := frame.(can_id); raw_bytes := frame.(raw_bytes);
     signal := frame.(signal); value := frame.(value); unit := frame.(unit);
     is_error := frame.(is_error); error_list := errors |}.

(** ** Encoders (node A) *)

Definition encode_rpm (rpm : float) : result (list byte) :=
  n <- int_of_float rpm ;;
  let val := Z.max 0 (Z.min 65535 n) in
  struct.pack_H val.

Definition encode_temp (temp_c : float) : result (list byte) :=
  n <- int_of_float (fmul temp_c (float_of_int 10)) ;;
  let val := Z.max (-3276) (Z.min 3276 n) in
  struct.pack_h val.

Definition encode_torque (torque_nm : float) : result (list byte) :=
  n <- int_of_float (fmul torque_nm (float_of_int 100)) ;;
  let val := Z.max (-3276) (Z.min 3276 n) in
  struct.pack_h val.

Definition encode_voltage (voltage_v : float) : result (list byte) :=
  n <- int_of_float (fmul voltage_v (float_of_int 10)) ;;
  let val := Z.max 0 (Z.min 6553 n) in
  struct.pack_H val.

Definition encode_current (current_a : float) : result (list byte) :=
  n <- int_of_float (fmul current_a (float_of_int 100)) ;;
  let val := Z.max (-3276) (Z.min 3276 n) in
  struct.pack_h val.

Definition encode_error (flags : Z) : list byte :=
  [byte_of_Z (Z.land flags 0xFF)].

(** ** Decoder (node B) *)

Definition _parse_error_flags (flags : Z) : list string :=
  let errors := [] in
  let errors := append_if (truthy (Z.land flags ERROR_OVERHEAT))
                          "AŞIRI ISINMA" errors in
  let errors := append_if (truthy (Z.land flags ERROR_OVERCURRENT))
                          "AŞIRI AKIM" errors in
  let errors := append_if (truthy (Z.land flags ERROR_UNDERVOLTAGE))
                          "DÜŞÜK GERİLİM" errors in
  let errors := append_if (truthy (Z.land flags ERROR_COMM_LOSS))
                          "İLETİŞİM KAYBI" errors in
  let errors := append_if (truthy (Z.land flags ERROR_ENCODER))
                          "ENCODER HATASI" errors in
  errors.

(** The body of the [try:] block. [Ok None] is the fall-through to the
    final [return None]. *)
Definition decode_frame_try (can_id : Z) (data : list byte)
  : result (option DecodedFrame) :=
  if can_id =? CAN_ID_RPM then
    val <- struct.unpack_H (firstn 2 data) ;;
    Ok (Some (mkFrame can_id data "Motor RPM" (float_of_int val) "RPM"))
  else if can_id =? CAN_ID_TEMP then
    raw <- struct.unpack_h (firstn 2 data) ;;
    let val := fdiv (float_of_int raw) (float_of_int 10) in
    Ok (Some (mkFrame can_id data "Motor Sıcaklığı" val "°C"))
  else if can_id =? CAN_ID_TORQUE then
    raw <- struct.unpack_h (firstn 2 data) ;;
    let val := fdiv (float_of_int raw) (float_of_int 100) in
    Ok (Some (mkFrame can_id data "Tork" val "N·m"))
  else if can_id =? CAN_ID_VOLTAGE then
    raw <- struct.unpack_H (firstn 2 data) ;;
    let val := fdiv (float_of_int raw) (float_of_int 10) in
    Ok (Some (mkFrame can_id data "DC Gerilim" val "V"))
  else if can_id =? CAN_ID_CURRENT then
    raw <- struct.unpack_h (firstn 2 data) ;;
    let val := fdiv (float_of_int raw) (float_of_int 100) in
    Ok (Some (mkFrame can_id data "Faz Akımı" val "A"))
  else if can_id =? CAN_ID_ERROR then
    let flags := match data with
                 | b :: _ => byte_to_Z b
                 | [] => 0
                 end in
    let dummy := mkFrame_error can_id data "Hata Durumu" (float_of_int flags) "" in
    let dummy := set_error_list dummy (_parse_error_flags flags) in
    Ok (Some dummy)
  else Ok None.

(** [decode_frame]: [struct.error] and [IndexError] are caught and turned
    into [None]; any other exception would propagate. *)
Definition decode_frame (can_id : Z) (data : list byte)
  : result (option DecodedFrame) :=
  match decode_frame_try can_id data with
  | Ok r => Ok r
  | Raise StructError | Raise IndexError => Ok None
  | Raise e => Raise e
  end.

(** ** The wire catalog

    The frame map of the module header: five numeric signals carried on two
    bytes and the fault flags carried on one. *)

Inductive numeric_signal : Type := Rpm | Temperature | Torque | Voltage | Current.

Definition signal_id (s : numeric_signal) : Z :=
  match s with
  | Rpm => CAN_ID_RPM
  | Temperature => CAN_ID_TEMP
  | Torque => CAN_ID_TORQUE
  | Voltage => CAN_ID_VOLTAGE
  | Current => CAN_ID_CURRENT
  end.

Definition scale (s : numeric_signal) : Z :=
  match s with
  | Rpm => 1
  | Temperature => 10
  | Torque => 100
  | Voltage => 10
  | Current => 100
  end.

(** The clamp bounds written in the encoders. *)
Definition clamp_lo (s : numeric_signal) : Z :=
  match s with
  | Rpm | Voltage => 0
  | Temperature | Torque | Current => -3276
  end.

Definition clamp_hi (s : numeric_signal) : Z :=
  match s with
  | Rpm => 65535
  | Voltage => 6553
  | Temperature | Torque | Current => 3276
  end.

Definition clamp (lo hi n : Z) : Z := Z.max lo (Z.min hi n).

Definition encode (s : numeric_signal) (v : float) : result (list byte) :=
  match s with
  | Rpm => encode_rpm v
  | Temperature => encode_temp v
  | Torque => encode_torque v
  | Voltage => encode_voltage v
  | Current => encode_current v
  end.

(** The float handed to [int(...)] by the encoder of [s]. *)
Definition scaled (s : numeric_signal) (v : float) : float :=
  match s with
  | Rpm => v
  | _ => fmul v (float_of_int (scale s))
  end.

(** The [struct] format the signal is packed with. *)
Definition unpack (s : numeric_signal) : list byte -> result Z :=
  match s with
  | Rpm | Voltage => struct.unpack_H
  | Temperature | Torque | Current => struct.unpack_h
  end.

Definition known_ids : list Z :=
  [CAN_ID_RPM; CAN_ID_TEMP; CAN_ID_TORQUE; CAN_ID_VOLTAGE; CAN_ID_CURRENT;
   CAN_ID_ERROR].

(** Payload width of an identifier ([byte[0:2]] or [byte[0]]). *)
Definition declared_width (can_id : Z) : option nat :=
  if can_id =? CAN_ID_ERROR then Some 1%nat
  else if existsb (Z.eqb can_id) known_ids then Some 2%nat
  else None.

(** ** Fault register, as the specification words it *)

(** Name of the condition carried by a bit position. *)
Definition fault_name (bit : Z) : string :=
  match bit with
  | 0 => "AŞIRI ISINMA"
  | 1 => "AŞIRI AKIM"
  | 2 => "DÜŞÜK GERİLİM"
  | 3 => "İLETİŞİM KAYBI"
  | _ => "ENCODER HATASI"
  end.

Definition named_bits : list Z := [0; 1; 2; 3; 4].

(** One name per set named bit, in ascending bit order. *)
Definition decode_bits_spec (flags : Z) : list string :=
  map fault_name (filter (Z.testbit flags) named_bits).

(** Mask of a condition name; a string that names no condition has none. *)
Definition mask_of_name (name : string) : Z :=
  if String.eqb name "AŞIRI ISINMA" then ERROR_OVERHEAT
  else if String.eqb name "AŞIRI AKIM" then ERROR_OVERCURRENT
  else if String.eqb name "DÜŞÜK GERİLİM" then ERROR_UNDERVOLTAGE
  else if String.eqb name "İLETİŞİM KAYBI" then ERROR_COMM_LOSS
  else if String.eqb name "ENCODER HATASI" then ERROR_ENCODER
  else 0.

(** Modelled from the spec: [encode_bits], which [can_protocol.py] does not
    define. It sets the bit of every given name and no other, the way
    node A builds its flag byte ([flags = 0] then [flags |= ERROR_...]),
    over the masks of the source. *)
Definition encode_bits (names : list string) : Z :=
  fold_left (fun flags name => Z.lor flags (mask_of_name name)) names 0.

Arguments float_of_int : simpl never.
Arguments fmul : simpl never.
Arguments fdiv : simpl never.

(** ** Float literals used in the examples

    Each is the binary64 number the Python literal denotes, given by its
    mantissa and exponent. *)

(** [82.3] *)
Definition float_82_3 : float := S754_finite false 5791347645821747 (-46).
(** [0.58] *)
Definition float_0_58 : float := S754_finite false 5224175567749775 (-53).
(** [1.75] *)
Definition float_1_75 : float := S754_finite false 7881299347898368 (-52).


(** ** Rounding of the binary64 operations

    [shr_inv M k mrs]: the record [mrs] is what [k] one-bit right shifts make
    of the mantissa [M]: [shr_m] is the quotient by [2 ^ k], the round bit
    tells whether the remainder reaches half of [2 ^ k], and a clear sticky
    bit tells that the remainder is zero or exactly that half. *)
Definition shr_inv (M k : Z) (mrs : shr_record) : Prop :=
  0 <= shr_m mrs
  /\ 0 <= M - shr_m mrs * 2 ^ k < 2 ^ k
  /\ (shr_r mrs = false -> 2 * (M - shr_m mrs * 2 ^ k) < 2 ^ k)
  /\ (shr_r mrs = true -> 2 ^ k <= 2 * (M - shr_m mrs * 2 ^ k))
  /\ (shr_s mrs = false ->
      M - shr_m mrs * 2 ^ k = 0 \/ 2 * (M - shr_m mrs * 2 ^ k) = 2 ^ k).

(** The value [decode_frame] computes from the unpacked integer. *)
Definition decode_value (s : numeric_signal) (raw : Z) : float :=
  match s with
  | Rpm => float_of_int raw
  | _ => fdiv (float_of_int raw) (float_of_int (scale s))
  end.

(** The binary64 quotient [raw / sc], scaled back, is within
    [sc * 2 ^ -44] of [raw]. *)
Definition quotient_close (sc raw : Z) : bool :=
  Qle_bool
    (Qabs (F2Q (fdiv (float_of_int raw) (float_of_int sc)) * inject_Z sc
           - inject_Z raw))
    (inject_Z sc * (1 # 2 ^ 44)).

(** The integers [lo], [lo + 1], ..., [lo + len - 1]. *)
Definition Zrange (lo : Z) (len : nat) : list Z :=
  map (fun k => lo + Z.of_nat k) (seq 0 len).

(** [quotient_close] on every integer from [lo] to [hi]. *)
Definition quotient_table_ok (sc lo hi : Z) : bool :=
  forallb (quotient_close sc) (Zrange lo (Z.to_nat (hi - lo + 1))).

(** ** Display of a decoded frame *)

(** [sep.join(parts)] *)
Fixpoint join (sep : string) (parts : list string) : string :=
  match parts with
  | [] => ""
  | p :: rest =>
      match rest with
      | [] => p
      | _ :: _ => p ++ sep ++ join sep rest
      end
  end.

(** One uppercase hexadecimal digit. *)
Definition hex_digit (n : N) : ascii :=
  match String.get (N.to_nat n) "0123456789ABCDEF" with
  | Some c => c
  | None => "0"%char
  end.

(** [f"{b:02X}"] for a byte. *)
Definition format_02X (b : byte) : string :=
  String (hex_digit (Byte.to_N b / 16))
         (String (hex_digit (Byte.to_N b mod 16)) "").

(** [DecodedFrame.hex_str] *)
Definition hex_str (self : DecodedFrame) : string :=
  join " " (map format_02X (raw_bytes self)).

(** [str(n)] for a natural number. *)
Definition string_of_N (n : N) : string :=
  NilZero.string_of_uint (N.to_uint n).

Fixpoint zeros (n : nat) : string :=
  match n with
  | O => ""
  | S n' => String "0"%char (zeros n')
  end.

(** The integer [k], read as a count of units of [10 ^ -ndigits], written
    with [ndigits] digits after the point. *)
Definition render_fixed (ndigits : nat) (k : N) : string :=
  let p := (10 ^ N.of_nat ndigits)%N in
  let int_part := string_of_N (k / p) in
  match ndigits with
  | O => int_part
  | _ =>
      let frac := string_of_N (k mod p) in
      int_part ++ "." ++ zeros (ndigits - String.length frac) ++ frac
  end.

(** [num / den] rounded to the nearest integer, ties to even. *)
Definition round_half_even (num : Z) (den : positive) : Z :=
  let q := num / Zpos den in
  let r := num mod Zpos den in
  match 2 * r ?= Zpos den with
  | Lt => q
  | Gt => q + 1
  | Eq => if Z.even q then q else q + 1
  end.

(** The magnitude [m * 2 ^ e], times [10 ^ ndigits], as a fraction. *)
Definition fixed_fraction (ndigits : nat) (m : positive) (e : Z)
  : Z * positive :=
  match e with
  | Zneg p => (Zpos m * 10 ^ Z.of_nat ndigits, (2 ^ p)%positive)
  | _ => (Zpos m * 2 ^ e * 10 ^ Z.of_nat ndigits, 1%positive)
  end.

(** [f"{x:.Nf}"]: the correctly rounded decimal with [N] digits after the
    point; the sign of a negative zero is kept. *)
Definition format_fixed (ndigits : nat) (x : float) : string :=
  match x with
  | S754_nan => "nan"
  | S754_infinity s => if s then "-inf" else "inf"
  | S754_zero s => (if s then "-" else "") ++ render_fixed ndigits 0
  | S754_finite s m e =>
      let '(num, den) := fixed_fraction ndigits m e in
      (if s then "-" else "")
      ++ render_fixed ndigits (Z.to_N (round_half_even num den))
  end.

(** [DecodedFrame.formatted_value] *)
Definition formatted_value (self : DecodedFrame) : string :=
  if is_error self then
    match error_list self with
    | _ :: _ => join " | " (error_list self)
    | [] => "Sistem Normal"
    end
  else format_fixed 2 (value self) ++ " " ++ unit self.

(** [CAN_ID_LABELS] *)
Definition CAN_ID_LABELS : list (Z * string) :=
  [(CAN_ID_RPM, "RPM       ");
   (CAN_ID_TEMP, "SICAKLIK  ");
   (CAN_ID_TORQUE, "TORK      ");
   (CAN_ID_VOLTAGE, "GERİLİM   ");
   (CAN_ID_CURRENT, "AKIM      ");
   (CAN_ID_ERROR, "HATA      ")].

(** [d.get(key)] on a dictionary kept as an association list. *)
Fixpoint dict_get {V : Type} (d : list (Z * V)) (key : Z) : option V :=
  match d with
  | [] => None
  | (k, v) :: rest => if key =? k then Some v else dict_get rest key
  end.

(** Float comparisons [a > b] and [a < b]. *)
Definition fgt (a b : float) : bool := SFltb b a.
Definition flt (a b : float) : bool := SFltb a b.

(** ** Node A: [node_a_sender.py] *)

Module node_a.

(** [0.04] *)
Definition ERROR_PROB : float := S754_finite false 5764607523034235 (-57).

(** [80.0], [5.0], [520.0], [5.5] and the integers [78] and [520] as the
    floats they are compared as. *)
Definition float_80 : float := S754_finite false 5629499534213120 (-46).
Definition float_5 : float := S754_finite false 5629499534213120 (-50).
Definition float_520 : float := S754_finite false 4573968371548160 (-43).
Definition float_5_5 : float := S754_finite false 6192449487634432 (-50).
Definition float_78 : float := S754_finite false 5488762045857792 (-46).

(** [random.choice(seq)], the random index being [i]. *)
Definition random_choice (i : nat) (seq : list Z) : Z :=
  nth (i mod List.length seq) seq 0.

(** [MotorSimulator.error_flags]; [rnd] is the value [random.random()]
    returns and [pick] the index [random.choice] draws. *)
Definition error_flags (temp_c current_a voltage_v : float)
  (rnd : float) (pick : nat) : Z :=
  let flags := 0 in
  let flags := if fgt temp_c float_80 then Z.lor flags ERROR_OVERHEAT
               else flags in
  let flags := if fgt current_a float_5 then Z.lor flags ERROR_OVERCURRENT
               else flags in
  let flags := if flt voltage_v float_520 then Z.lor flags ERROR_UNDERVOLTAGE
               else flags in
  let flags := if flt rnd ERROR_PROB
               then Z.lor flags
                      (random_choice pick
                         [ERROR_OVERCURRENT; ERROR_UNDERVOLTAGE])
               else flags in
  flags.

(** The list [frames_to_send] of the main loop: identifier, payload, log
    text and warning mark of the five telemetry frames. *)
Definition frames_to_send (rpm temp torq volt curr : float)
  : result (list (Z * list byte * string * bool)) :=
  d_rpm <- encode_rpm rpm ;;
  d_temp <- encode_temp temp ;;
  d_torq <- encode_torque torq ;;
  d_volt <- encode_voltage volt ;;
  d_curr <- encode_current curr ;;
  Ok [(CAN_ID_RPM, d_rpm, format_fixed 0 rpm ++ " RPM", false);
      (CAN_ID_TEMP, d_temp, format_fixed 1 temp ++ " °C", fgt temp float_78);
      (CAN_ID_TORQUE, d_torq, format_fixed 2 torq ++ " N·m", false);
      (CAN_ID_VOLTAGE, d_volt, format_fixed 1 volt ++ " V",
       flt volt float_520);
      (CAN_ID_CURRENT, d_curr, format_fixed 2 curr ++ " A",
       fgt curr float_5_5)].

(** The messages one pass of the main loop hands to [bus.send], in order:
    the five telemetry frames, then the fault frame when [flags != 0]. *)
Definition sent_messages (rpm temp torq volt curr : float) (flags : Z)
  : result (list (Z * list byte)) :=
  frames <- frames_to_send rpm temp torq volt curr ;;
  let telemetry := map (fun f => (fst (fst (fst f)), snd (fst (fst f))))
                       frames in
  Ok (telemetry
      ++ (if negb (flags =? 0) then [(CAN_ID_ERROR, encode_error flags)]
          else []))%list.

End node_a.

(** ** Node B: [node_b_analyzer_gui.py] *)

Module node_b.

Definition MAX_POINTS : nat := 1000.

(** [collections.deque(maxlen=...)]: [append] on a full deque drops the
    leftmost item. *)
Definition deque_append (maxlen : nat) (q : list float) (x : float)
  : list float :=
  if (List.length q <? maxlen)%nat then (q ++ [x])%list
  else tl (q ++ [x])%list.

(** The dictionary [DataStore.latest], one field per key. *)
Record Latest : Type := {
  latest_rpm : float;
  latest_temp : float;
  latest_torque : float;
  latest_current : float;
  latest_voltage : float;
  latest_errors : list string;
  total_frames : Z;
  error_frames : Z
}.

Record DataStore : Type := {
  times : list float;
  rpm : list float;
  temp : list float;
  torque : list float;
  current : list float;
  voltage : list float;
  errors : list (float * list string);
  latest : Latest
}.

(** [DataStore()] *)
Definition new_store : DataStore :=
  {| times := []; rpm := []; temp := []; torque := []; current := [];
     voltage := []; errors := [];
     latest := {| latest_rpm := S754_zero false;
                  latest_temp := S754_zero false;
                  latest_torque := S754_zero false;
                  latest_current := S754_zero false;
                  latest_voltage := S754_zero false;
                  latest_errors := [];
                  total_frames := 0; error_frames := 0 |} |}.

(** [self.latest["total_frames"] += 1] *)
Definition count_frame (l : Latest) : Latest :=
  {| latest_rpm := latest_rpm l; latest_temp := latest_temp l;
     latest_torque := latest_torque l; latest_current := latest_current l;
     latest_voltage := latest_voltage l; latest_errors := latest_errors l;
     total_frames := total_frames l + 1; error_frames := error_frames l |}.

(** [DataStore.push], the body run under the lock. *)
Definition push (self : DataStore) (can_id : Z) (value : float) (t : float)
  : DataStore :=
  let l := count_frame (latest self) in
  let now := t in
  if can_id =? CAN_ID_RPM then
    {| times := deque_append MAX_POINTS (times self) now;
       rpm := deque_append MAX_POINTS (rpm self) value;
       temp := temp self; torque := torque self; current := current self;
       voltage := voltage self; errors := errors self;
       latest := {| latest_rpm := value; latest_temp := latest_temp l;
                    latest_torque := latest_torque l;
                    latest_current := latest_current l;
                    latest_voltage := latest_voltage l;
                    latest_errors := latest_errors l;
                    total_frames := total_frames l;
                    error_frames := error_frames l |} |}
  else if can_id =? CAN_ID_TEMP then
    {| times := times self; rpm := rpm self;
       temp := deque_append MAX_POINTS (temp self) value;
       torque := torque self; current := current self;
       voltage := voltage self; errors := errors self;
       latest := {| latest_rpm := latest_rpm l; latest_temp := value;
                    latest_torque := latest_torque l;
                    latest_current := latest_current l;
                    latest_voltage := latest_voltage l;
                    latest_errors := latest_errors l;
                    total_frames := total_frames l;
                    error_frames := error_frames l |} |}
  else if can_id =? CAN_ID_TORQUE then
    {| times := times self; rpm := rpm self; temp := temp self;
       torque := deque_append MAX_POINTS (torque self) value;
       current := current self; voltage := voltage self;
       errors := errors self;
       latest := {| latest_rpm := latest_rpm l; latest_temp := latest_temp l;
                    latest_torque := value;
                    latest_current := latest_current l;
                    latest_voltage := latest_voltage l;
                    latest_errors := latest_errors l;
                    total_frames := total_frames l;
                    error_frames := error_frames l |} |}
  else if can_id =? CAN_ID_CURRENT then
    {| times := times self; rpm := rpm self; temp := temp self;
       torque := torque self;
       current := deque_append MAX_POINTS (current self) value;
       voltage := voltage self; errors := errors self;
       latest := {| latest_rpm := latest_rpm l; latest_temp := latest_temp l;
                    latest_torque := latest_torque l;
                    latest_current := value;
                    latest_voltage := latest_voltage l;
                    latest_errors := latest_errors l;
                    total_frames := total_frames l;
                    error_frames := error_frames l |} |}
  else if can_id =? CAN_ID_VOLTAGE then
    {| times := times self; rpm := rpm self; temp := temp self;
       torque := torque self; current := current self;
       voltage := deque_append MAX_POINTS (voltage self) value;
       errors := errors self;
       latest := {| latest_rpm := latest_rpm l; latest_temp := latest_temp l;
                    latest_torque := latest_torque l;
                    latest_current := latest_current l;
                    latest_voltage := value;
                    latest_errors := latest_errors l;
                    total_frames := total_frames l;
                    error_frames := error_frames l |} |}
  else if can_id =? CAN_ID_ERROR then
    {| times := times self; rpm := rpm self; temp := temp self;
       torque := torque self; current := current self;
       voltage := voltage self; errors := errors self;
       latest := {| latest_rpm := latest_rpm l; latest_temp := latest_temp l;
                    latest_torque := latest_torque l;
                    latest_current := latest_current l;
                    latest_voltage := latest_voltage l;
                    latest_errors := latest_errors l;
                    total_frames := total_frames l;
                    error_frames := error_frames l + 1 |} |}
  else
    {| times := times self; rpm := rpm self; temp := temp self;
       torque := torque self; current := current self;
       voltage := voltage self; errors := errors self; latest := l |}.

(** An item of the log queue: kind, identifier, payload, text, error
    mark. *)
Definition log_entry : Type := (string * Z * list byte * string * bool)%type.

Definition LOG_QUEUE_MAXSIZE : nat := 500.

(** [queue.put_nowait(item)]; [None] stands for [queue.Full]. *)
Definition put_nowait (maxsize : nat) (q : list log_entry) (item : log_entry)
  : option (list log_entry) :=
  if (List.length q <? maxsize)%nat then Some (q ++ [item])%list else None.

(** One pass of the receive loop of [can_listener_thread] on a received
    message: identifier, payload and arrival time. *)
Definition listener_step (st : DataStore * list log_entry)
  (msg : Z * list byte * float) : result (DataStore * list log_entry) :=
  let '(store, log_queue) := st in
  let '(arbitration_id, data, t) := msg in
  frame <- decode_frame arbitration_id data ;;
  match frame with
  | None => Ok (store, log_queue)
  | Some frame =>
      let store := push store arbitration_id (value frame) t in
      let is_err := is_error frame
                    && match error_list frame with [] => false | _ => true end in
      match put_nowait LOG_QUEUE_MAXSIZE log_queue
              ("FRAME", arbitration_id, data, formatted_value frame, is_err)
      with
      | Some q => Ok (store, q)
      | None => Ok (store, log_queue)
      end
  end.

(** The receive loop over a sequence of received messages. *)
Fixpoint listener_run (st : DataStore * list log_entry)
  (msgs : list (Z * list byte * float)) : result (DataStore * list log_entry) :=
  match msgs with
  | [] => Ok st
  | msg :: rest =>
      st' <- listener_step st msg ;;
      listener_run st' rest
  end.

End node_b.

(** What the plots and the value cards of node B rely on: the time axis
    and the rpm series have the same length, no series holds more than
    [MAX_POINTS] items, and the newest item of each series is the value
    kept in [latest]. *)
Definition store_inv (st : node_b.DataStore) : Prop :=
  List.length (node_b.times st) = List.length (node_b.rpm st)
  /\ (List.length (node_b.rpm st) <= node_b.MAX_POINTS)%nat
  /\ (List.length (node_b.temp st) <= node_b.MAX_POINTS)%nat
  /\ (List.length (node_b.torque st) <= node_b.MAX_POINTS)%nat
  /\ (List.length (node_b.current st) <= node_b.MAX_POINTS)%nat
  /\ (List.length (node_b.voltage st) <= node_b.MAX_POINTS)%nat
  /\ last (node_b.rpm st) (node_b.latest_rpm (node_b.latest st))
     = node_b.latest_rpm (node_b.latest st)
  /\ last (node_b.temp st) (node_b.latest_temp (node_b.latest st))
     = node_b.latest_temp (node_b.latest st)
  /\ last (node_b.torque st) (node_b.latest_torque (node_b.latest st))
     = node_b.latest_torque (node_b.latest st)
  /\ last (node_b.current st) (node_b.latest_current (node_b.latest st))
     = node_b.latest_current (node_b.latest st)
  /\ last (node_b.voltage st) (node_b.latest_voltage (node_b.latest st))
     = node_b.latest_voltage (node_b.latest st).

(** Whether [decode_frame] returns a frame for a received message. *)
Definition decodable (msg : Z * list byte * float) : bool :=
  match decode_frame (fst (fst msg)) (snd (fst msg)) with
  | Ok (Some _) => true
  | _ => false
  end.

(** Whether a received message carries the fault identifier. *)
Definition is_fault_message (msg : Z * list byte * float) : bool :=
  fst (fst msg) =? CAN_ID_ERROR.

(** * Properties *)

(** ** Bytes and [struct] *)

Lemma byte_to_Z_range (b : byte) : 0 <= byte_to_Z b < 256.
Proof.
  unfold byte_to_Z. pose proof (Byte.to_N_bounded b). lia.
Qed.

Lemma byte_of_to_Z (b : byte) : byte_of_Z (byte_to_Z b) = b.
Proof.
  unfold byte_of_Z, byte_to_Z. rewrite N2Z.id, Byte.of_to_N. reflexivity.
Qed.

Lemma byte_to_of_Z (n : Z) : 0 <= n < 256 -> byte_to_Z (byte_of_Z n) = n.
Proof.
  intros Hn. unfold byte_of_Z, byte_to_Z.
  destruct (Byte.of_N (Z.to_N n)) as [b|] eqn:E.
  - apply Byte.to_of_N in E. rewrite E. lia.
  - apply Byte.of_N_None_iff in E. lia.
Qed.

Lemma unpack_H_pack_H (val : Z) :
  0 <= val <= 65535 ->
  exists b0 b1, struct.pack_H val = Ok [b0; b1]
                /\ struct.unpack_H [b0; b1] = Ok val.
Proof.
  intros Hv. unfold struct.pack_H.
  replace ((0 <=? val) && (val <=? 65535)) with true
    by (symmetry; apply andb_true_iff; split; apply Z.leb_le; lia).
  eexists; eexists; split; [reflexivity|].
  unfold struct.unpack_H.
  rewrite !byte_to_of_Z.
  - f_equal. pose proof (Z.div_mod val 256). lia.
  - apply Z.mod_pos_bound. lia.
  - split; [apply Z.div_pos; lia | apply Z.div_lt_upper_bound; lia].
Qed.

Lemma unpack_h_pack_h (val : Z) :
  -32768 <= val <= 32767 ->
  exists b0 b1, struct.pack_h val = Ok [b0; b1]
                /\ struct.unpack_h [b0; b1] = Ok val.
Proof.
  intros Hv. unfold struct.pack_h.
  replace ((-32768 <=? val) && (val <=? 32767)) with true
    by (symmetry; apply andb_true_iff; split; apply Z.leb_le; lia).
  eexists; eexists; split; [reflexivity|].
  unfold struct.unpack_h. cbv zeta.
  assert (Hu : 0 <= val mod 65536 < 65536) by (apply Z.mod_pos_bound; lia).
  rewrite !byte_to_of_Z.
  - replace (256 * (val mod 65536 / 256) + (val mod 65536) mod 256)
      with (val mod 65536)
      by (pose proof (Z.div_mod (val mod 65536) 256); lia).
    f_equal.
    assert (Hm : val mod 65536 = if val <? 0 then val + 65536 else val).
    { destruct (Z.ltb_spec val 0).
      - rewrite <- (Z.mod_add val 1 65536) by lia. apply Z.mod_small. lia.
      - apply Z.mod_small. lia. }
    rewrite Hm.
    destruct (Z.ltb_spec val 0);
      match goal with |- context [32768 <=? ?u] =>
        destruct (Z.leb_spec 32768 u) end; lia.
  - apply Z.mod_pos_bound. lia.
  - split; [apply Z.div_pos; lia | apply Z.div_lt_upper_bound; lia].
Qed.

Lemma unpack_H_firstn (data : list byte) :
  struct.unpack_H (firstn 2 data)
  = match data with
    | b0 :: b1 :: _ => Ok (256 * byte_to_Z b0 + byte_to_Z b1)
    | _ => Raise StructError
    end.
Proof. destruct data as [|b0 [|b1 [|b2 rest]]]; reflexivity. Qed.

Lemma unpack_h_firstn (data : list byte) :
  struct.unpack_h (firstn 2 data)
  = match data with
    | b0 :: b1 :: _ =>
        let u := 256 * byte_to_Z b0 + byte_to_Z b1 in
        Ok (if 32768 <=? u then u - 65536 else u)
    | _ => Raise StructError
    end.
Proof. destruct data as [|b0 [|b1 [|b2 rest]]]; reflexivity. Qed.

(** ** Identifier dispatch *)

Lemma declared_width_cases (i : Z) (w : nat) :
  declared_width i = Some w ->
  (i = CAN_ID_ERROR /\ w = 1%nat)
  \/ ((exists s, i = signal_id s) /\ w = 2%nat).
Proof.
  unfold declared_width, known_ids. cbn [existsb].
  destruct (Z.eqb_spec i CAN_ID_ERROR) as [->|Herr].
  - intros [= <-]. left. split; reflexivity.
  - destruct (Z.eqb_spec i CAN_ID_RPM) as [->|];
      [intros [= <-]; right; split; [exists Rpm|]; reflexivity|].
    destruct (Z.eqb_spec i CAN_ID_TEMP) as [->|];
      [intros [= <-]; right; split; [exists Temperature|]; reflexivity|].
    destruct (Z.eqb_spec i CAN_ID_TORQUE) as [->|];
      [intros [= <-]; right; split; [exists Torque|]; reflexivity|].
    destruct (Z.eqb_spec i CAN_ID_VOLTAGE) as [->|];
      [intros [= <-]; right; split; [exists Voltage|]; reflexivity|].
    destruct (Z.eqb_spec i CAN_ID_CURRENT) as [->|];
      [intros [= <-]; right; split; [exists Current|]; reflexivity|].
    cbn. discriminate.
Qed.

Lemma declared_width_unknown (i : Z) :
  ~ In i known_ids -> declared_width i = None.
Proof.
  intros Hn. unfold declared_width.
  destruct (Z.eqb_spec i CAN_ID_ERROR) as [->|_].
  - exfalso. apply Hn. cbn. tauto.
  - destruct (existsb (Z.eqb i) known_ids) eqn:E; [|reflexivity].
    apply existsb_exists in E. destruct E as [k [Hk E]].
    apply Z.eqb_eq in E. subst k. contradiction.
Qed.

Lemma decode_frame_numeric (s : numeric_signal) (data : list byte) :
  decode_frame (signal_id s) data
  = match unpack s (firstn 2 data) with
    | Ok raw =>
        Ok (Some
          (match s with
           | Rpm => mkFrame CAN_ID_RPM data "Motor RPM" (float_of_int raw) "RPM"
           | Temperature =>
               mkFrame CAN_ID_TEMP data "Motor Sıcaklığı"
                       (fdiv (float_of_int raw) (float_of_int 10)) "°C"
           | Torque =>
               mkFrame CAN_ID_TORQUE data "Tork"
                       (fdiv (float_of_int raw) (float_of_int 100)) "N·m"
           | Voltage =>
               mkFrame CAN_ID_VOLTAGE data "DC Gerilim"
                       (fdiv (float_of_int raw) (float_of_int 10)) "V"
           | Current =>
               mkFrame CAN_ID_CURRENT data "Faz Akımı"
                       (fdiv (float_of_int raw) (float_of_int 100)) "A"
           end))
    | Raise _ => Ok None
    end.
Proof.
  destruct s; cbn [unpack signal_id];
    rewrite ?unpack_H_firstn, ?unpack_h_firstn;
    unfold decode_frame, decode_frame_try; cbn [Z.eqb CAN_ID_RPM CAN_ID_TEMP
      CAN_ID_TORQUE CAN_ID_VOLTAGE CAN_ID_CURRENT CAN_ID_ERROR Pos.eqb];
    rewrite ?unpack_H_firstn, ?unpack_h_firstn;
    destruct data as [|b0 [|b1 rest]]; reflexivity.
Qed.

Lemma decode_frame_error (data : list byte) :
  decode_frame CAN_ID_ERROR data
  = let flags := match data with b :: _ => byte_to_Z b | [] => 0 end in
    Ok (Some {| can_id := CAN_ID_ERROR; raw_bytes := data;
                signal := "Hata Durumu"; value := float_of_int flags;
                unit := ""; is_error := true;
                error_list := _parse_error_flags flags |}).
Proof. reflexivity. Qed.

Lemma decode_frame_unknown (i : Z) (data : list byte) :
  ~ In i known_ids -> decode_frame i data = Ok None.
Proof.
  intros Hn. unfold decode_frame, decode_frame_try.
  repeat match goal with
  | |- context [i =? ?c] =>
      destruct (Z.eqb_spec i c) as [->|_];
      [exfalso; apply Hn; cbn; tauto|]
  end.
  reflexivity.
Qed.

(** ** Fault flags *)

Lemma truthy_land_pow2 (flags i : Z) :
  0 <= i -> truthy (Z.land flags (2 ^ i)) = Z.testbit flags i.
Proof.
  intros Hi. unfold truthy.
  destruct (Z.testbit flags i) eqn:E.
  - apply negb_true_iff, Z.eqb_neq. intros H0.
    assert (Hb : Z.testbit (Z.land flags (2 ^ i)) i = true)
      by (rewrite Z.land_spec, E, Z.pow2_bits_true; [reflexivity | lia]).
    rewrite H0, Z.bits_0 in Hb. discriminate.
  - apply negb_false_iff, Z.eqb_eq, Z.bits_inj'. intros n Hn.
    rewrite Z.land_spec, Z.bits_0, Z.pow2_bits_eqb by lia.
    destruct (Z.eqb_spec i n) as [<-|_].
    + rewrite E. reflexivity.
    + apply andb_false_r.
Qed.

Lemma parse_error_flags_spec (flags : Z) :
  _parse_error_flags flags = decode_bits_spec flags.
Proof.
  unfold _parse_error_flags, decode_bits_spec, named_bits.
  change ERROR_OVERHEAT with (2 ^ 0). change ERROR_OVERCURRENT with (2 ^ 1).
  change ERROR_UNDERVOLTAGE with (2 ^ 2). change ERROR_COMM_LOSS with (2 ^ 3).
  change ERROR_ENCODER with (2 ^ 4).
  rewrite !truthy_land_pow2 by lia. cbn [filter].
  destruct (Z.testbit flags 0), (Z.testbit flags 1), (Z.testbit flags 2),
    (Z.testbit flags 3), (Z.testbit flags 4); reflexivity.
Qed.

Lemma testbit_mask_of_name (name : string) (bit : Z) :
  In bit named_bits ->
  Z.testbit (mask_of_name name) bit = true <-> name = fault_name bit.
Proof.
  intros Hb. unfold mask_of_name.
  repeat match goal with
  | |- context [String.eqb name ?s] =>
      destruct (String.eqb_spec name s) as [->|?]
  end;
  cbn in Hb;
  repeat (destruct Hb as [<-|Hb]; [cbn; split; congruence|]);
  try contradiction.
Qed.

Lemma testbit_mask_of_name_high (name : string) (bit : Z) :
  5 <= bit -> Z.testbit (mask_of_name name) bit = false.
Proof.
  intros Hb. unfold mask_of_name.
  repeat match goal with
  | |- context [String.eqb name ?s] => destruct (String.eqb name s)
  end;
  try apply Z.bits_0;
  (apply Z.bits_above_log2; [cbv; congruence | cbn; lia]).
Qed.

Lemma testbit_fold_lor (names : list string) (acc bit : Z) :
  Z.testbit
    (fold_left (fun flags name => Z.lor flags (mask_of_name name)) names acc)
    bit
  = Z.testbit acc bit
    || existsb (fun name => Z.testbit (mask_of_name name) bit) names.
Proof.
  revert acc. induction names as [|name names IH]; intros acc; cbn.
  - symmetry. apply orb_false_r.
  - rewrite IH, Z.lor_spec. symmetry. apply orb_assoc.
Qed.

(** ** Short, unknown and oversized frames *)

Lemma decode_frame_short (s : numeric_signal) (data : list byte) :
  (List.length data < 2)%nat -> decode_frame (signal_id s) data = Ok None.
Proof.
  intros Hlen. rewrite decode_frame_numeric.
  destruct data as [|b0 [|b1 rest]]; [| |cbn in Hlen; lia];
    destruct s; reflexivity.
Qed.

Lemma decode_frame_never_raises (i : Z) (data : list byte) :
  exists r, decode_frame i data = Ok r.
Proof.
  destruct (declared_width i) as [w|] eqn:E.
  - apply declared_width_cases in E.
    destruct E as [[-> _]|[[s ->] _]].
    + rewrite decode_frame_error. eexists. reflexivity.
    + rewrite decode_frame_numeric.
      destruct (unpack s (firstn 2 data)); eexists; reflexivity.
  - assert (Hn : ~ In i known_ids).
    { intros Hin. unfold declared_width in E.
      destruct (i =? CAN_ID_ERROR); [discriminate|].
      destruct (existsb (Z.eqb i) known_ids) eqn:Ex; [discriminate|].
      assert (Ht : existsb (Z.eqb i) known_ids = true)
        by (apply existsb_exists; exists i; split;
            [assumption | apply Z.eqb_refl]).
      congruence. }
    exists None. apply decode_frame_unknown. assumption.
Qed.

(** C9: for every integer flag value, [MotorTelemetry.active_errors] and
    [_parse_error_flags] give the same names in the same order. *)
Theorem active_errors_eq_parse_error_flags :
  forall (r t q v c : option float) (flags : Z) (ts : float),
    active_errors {| rpm := r; temp_c := t; torque_nm := q; voltage_v := v;
                     current_a := c; error_flags := flags; timestamp := ts |}
    = _parse_error_flags flags.
Proof.
  intros. unfold active_errors, _parse_error_flags. cbn [error_flags].
  reflexivity.
Qed.

(** C7: the fault-bit decode lists one name per set named bit, in ascending
    bit order (bit 0 overheat, bit 1 overcurrent, bit 2 undervoltage, bit 3
    communication loss, bit 4 encoder fault); bits 5 to 7 add no name; the
    decoded fault frame carries that list; and 0x05 decodes to the overheat
    and undervoltage names. *)
Theorem parse_error_flags_named_bits :
  (forall flags, _parse_error_flags flags
                 = map fault_name (filter (Z.testbit flags) [0; 1; 2; 3; 4]))
  /\ (forall flags, _parse_error_flags flags
                    = _parse_error_flags (Z.land flags 0x1F))
  /\ (forall b : byte, exists frame,
         decode_frame CAN_ID_ERROR [b] = Ok (Some frame)
         /\ error_list frame = decode_bits_spec (byte_to_Z b))
  /\ _parse_error_flags 0x05 = ["AŞIRI ISINMA"; "DÜŞÜK GERİLİM"].
Proof.
  split; [exact parse_error_flags_spec|].
  split.
  - intros flags. rewrite !parse_error_flags_spec.
    unfold decode_bits_spec, named_bits. cbn [filter].
    rewrite !Z.land_spec. cbn [Z.testbit Pos.testbit].
    rewrite !andb_true_r. reflexivity.
  - split; [|reflexivity].
    intros b. rewrite decode_frame_error. eexists. split; [reflexivity|].
    cbn [error_list]. apply parse_error_flags_spec.
Qed.

(** C8: [encode_bits] sets the bit of each given name and no other bit, so
    encoding the names decoded from a byte gives that byte with bits 5 to 7
    cleared. *)
Theorem encode_bits_decode_bits :
  (forall names bit, In bit named_bits ->
     (Z.testbit (encode_bits names) bit = true <-> In (fault_name bit) names))
  /\ (forall names bit, 5 <= bit -> Z.testbit (encode_bits names) bit = false)
  /\ (forall b : byte,
        encode_bits (_parse_error_flags (byte_to_Z b))
        = Z.land (byte_to_Z b) 0x1F)
  /\ encode_bits (_parse_error_flags 0xE5) = 0x05.
Proof.
  split; [|split; [|split]].
  - intros names bit Hb. unfold encode_bits.
    rewrite testbit_fold_lor, Z.bits_0, orb_false_l, existsb_exists.
    split.
    + intros [name [Hin Ht]]. apply testbit_mask_of_name in Ht; [|assumption].
      subst name. assumption.
    + intros Hin. exists (fault_name bit). split; [assumption|].
      apply testbit_mask_of_name; [assumption | reflexivity].
  - intros names bit Hb. unfold encode_bits.
    rewrite testbit_fold_lor, Z.bits_0, orb_false_l.
    destruct (existsb _ names) eqn:E; [|reflexivity].
    apply existsb_exists in E. destruct E as [name [_ Ht]].
    rewrite testbit_mask_of_name_high in Ht by assumption. discriminate.
  - intros b. destruct b; vm_compute; reflexivity.
  - vm_compute. reflexivity.
Qed.

Lemma encode_bits_decode_bits_witness :
  In 2 named_bits
  /\ (Z.testbit (encode_bits ["AŞIRI ISINMA"; "DÜŞÜK GERİLİM"]) 2 = true
      <-> In (fault_name 2) ["AŞIRI ISINMA"; "DÜŞÜK GERİLİM"]).
Proof.
  assert (H : In 2 named_bits) by (right; right; left; reflexivity).
  split; [exact H|].
  exact (proj1 encode_bits_decode_bits
               ["AŞIRI ISINMA"; "DÜŞÜK GERİLİM"] 2 H).
Defined.

(** C6: for every byte, decoding the fault frame yields that byte as its
    value, and [encode_error] applied to the decoded byte gives the payload
    back, bits 5 to 7 included. *)
Theorem fault_raw_byte_round_trip :
  forall b : byte, exists frame,
    decode_frame CAN_ID_ERROR [b] = Ok (Some frame)
    /\ value frame = float_of_int (byte_to_Z b)
    /\ int_of_float (value frame) = Ok (byte_to_Z b)
    /\ raw_bytes frame = [b]
    /\ encode_error (byte_to_Z b) = [b].
Proof.
  intros b. rewrite decode_frame_error. eexists.
  split; [reflexivity|]. cbn [value raw_bytes].
  split; [reflexivity|].
  split; [destruct b; vm_compute; reflexivity|].
  split; [reflexivity|].
  destruct b; vm_compute; reflexivity.
Qed.

(** C3, as the code has it: a payload shorter than two bytes makes
    [decode_frame] return [None] for each of the five numeric identifiers;
    the fault identifier accepts the empty payload and decodes it as the
    flag byte 0. *)
Theorem short_payload_outcome :
  (forall s data, (List.length data < 2)%nat ->
     decode_frame (signal_id s) data = Ok None)
  /\ decode_frame CAN_ID_ERROR []
     = Ok (Some {| can_id := CAN_ID_ERROR; raw_bytes := [];
                   signal := "Hata Durumu"; value := S754_zero false;
                   unit := ""; is_error := true; error_list := [] |}).
Proof.
  split; [exact decode_frame_short | reflexivity].
Qed.

Lemma short_payload_outcome_witness :
  (List.length [x01] < 2)%nat
  /\ decode_frame (signal_id Rpm) [x01] = Ok None.
Proof.
  split; [exact (le_n 2)|].
  exact (proj1 short_payload_outcome Rpm [x01] (le_n 2)).
Defined.

(** C3 as stated fails: the empty payload is shorter than the declared
    width of the fault identifier and is decoded all the same. *)
Lemma short_fault_payload_is_decoded :
  ~ (forall i data w,
       declared_width i = Some w -> (List.length data < w)%nat ->
       decode_frame i data = Ok None).
Proof.
  intros H. specialize (H CAN_ID_ERROR [] 1%nat eq_refl (Nat.lt_0_succ 0)).
  discriminate H.
Qed.

(** C4, as the code has it: [decode_frame] never raises and returns [None]
    or a frame; an identifier outside the six known ones gives [None], and
    so does a too-short payload of a numeric identifier. *)
Theorem decode_frame_outcomes :
  (forall i data, exists r, decode_frame i data = Ok r)
  /\ (forall i data, ~ In i known_ids -> decode_frame i data = Ok None)
  /\ (forall s data, (List.length data < 2)%nat ->
        decode_frame (signal_id s) data = Ok None).
Proof.
  split; [exact decode_frame_never_raises|].
  split; [exact decode_frame_unknown | exact decode_frame_short].
Qed.

Lemma decode_frame_outcomes_witness :
  ~ In 0x999 known_ids /\ decode_frame 0x999 [x00; x00] = Ok None.
Proof.
  assert (H : ~ In 0x999 known_ids)
    by (cbn; intros [E|[E|[E|[E|[E|[E|[]]]]]]]; discriminate E).
  split; [exact H|].
  exact (proj1 (proj2 decode_frame_outcomes) 0x999 [x00; x00] H).
Defined.

(** C4 as stated fails: the outcome for an unknown identifier is the very
    outcome for a too-short payload. *)
Lemma unknown_id_same_as_malformed :
  ~ (forall u udata k kdata w,
       ~ In u known_ids ->
       declared_width k = Some w -> (List.length kdata < w)%nat ->
       decode_frame u udata <> decode_frame k kdata).
Proof.
  intros H.
  apply (H 0x999 [x00; x00] CAN_ID_RPM [x01] 2%nat).
  - cbn. intros [E|[E|[E|[E|[E|[E|[]]]]]]]; discriminate E.
  - reflexivity.
  - cbn. lia.
  - reflexivity.
Qed.

(** C10: a payload at least as long as the declared width is decoded; the
    value and the error list are those of its first declared-width bytes;
    [can_id] is the identifier given and [raw_bytes] the whole payload. *)
Theorem decode_frame_oversized :
  forall i data w,
    declared_width i = Some w -> (w <= List.length data)%nat ->
    exists frame frame0,
      decode_frame i data = Ok (Some frame)
      /\ decode_frame i (firstn w data) = Ok (Some frame0)
      /\ value frame = value frame0
      /\ error_list frame = error_list frame0
      /\ can_id frame = i
      /\ raw_bytes frame = data.
Proof.
  intros i data w Hw Hlen. apply declared_width_cases in Hw.
  destruct Hw as [[-> ->]|[[s ->] ->]].
  - rewrite !decode_frame_error.
    destruct data as [|b rest]; [cbn in Hlen; lia|].
    do 2 eexists. repeat split.
  - rewrite !decode_frame_numeric.
    destruct data as [|b0 [|b1 rest]]; [cbn in Hlen; lia | cbn in Hlen; lia|].
    destruct s; do 2 eexists; repeat split.
Qed.

Lemma decode_frame_oversized_witness :
  exists frame frame0,
    decode_frame CAN_ID_TEMP [x03; x37; xff] = Ok (Some frame)
    /\ decode_frame CAN_ID_TEMP (firstn 2 [x03; x37; xff]) = Ok (Some frame0)
    /\ value frame = value frame0
    /\ error_list frame = error_list frame0
    /\ can_id frame = CAN_ID_TEMP
    /\ raw_bytes frame = [x03; x37; xff].
Proof.
  apply (decode_frame_oversized CAN_ID_TEMP [x03; x37; xff] 2%nat).
  - reflexivity.
  - cbn. lia.
Defined.

(** C5, as the code has it: [encode_temp(82.3)] is the two bytes 0x03 0x37,
    the big-endian integer 823, and [decode_frame(0x101, [0x03, 0x37])] is
    a frame of value 82.3 and unit degrees Celsius. *)
Theorem encode_temp_82_3 :
  encode_temp float_82_3 = Ok [x03; x37]
  /\ struct.unpack_h [x03; x37] = Ok 823
  /\ decode_frame 0x101 [x03; x37]
     = Ok (Some {| can_id := 0x101; raw_bytes := [x03; x37];
                   signal := "Motor Sıcaklığı"; value := float_82_3;
                   unit := "°C"; is_error := false; error_list := [] |}).
Proof.
  repeat split; vm_compute; reflexivity.
Qed.

(** C5 as stated fails: the bytes 0x03 0x3B are the integer 827; the
    encoder does not produce them for 82.3 and they do not decode to 82.3. *)
Lemma encode_temp_82_3_not_3B :
  ~ (encode_temp float_82_3 = Ok [x03; x3b]
     \/ exists frame, decode_frame 0x101 [x03; x3b] = Ok (Some frame)
                      /\ value frame = float_82_3).
Proof.
  intros [H|[frame [H Hv]]].
  - vm_compute in H. discriminate H.
  - vm_compute in H. injection H as <-. vm_compute in Hv. discriminate Hv.
Qed.

(** ** [int(x)] truncates toward zero *)

Lemma Qpower_2_pos (e : Z) : (0 < 2 ^ e)%Q.
Proof. apply Qpower_0_lt. reflexivity. Qed.

Lemma Qpower_2_nonneg (e : Z) :
  0 <= e -> (2 ^ e == inject_Z (2 ^ e))%Q.
Proof. intros He. rewrite Zpower_Qpower by assumption. reflexivity. Qed.

Lemma Qpower_2_neg (p : positive) :
  (2 ^ Zneg p == / inject_Z (2 ^ Zpos p))%Q.
Proof.
  change (Zneg p) with (- Zpos p).
  rewrite Qpower_opp, Qpower_2_nonneg by lia. reflexivity.
Qed.

Lemma floor_div_bounds (m k : Z) :
  0 < k ->
  (inject_Z (m / k) <= inject_Z m * / inject_Z k
   /\ inject_Z m * / inject_Z k < inject_Z (m / k) + 1)%Q.
Proof.
  intros Hk.
  assert (HkQ : (0 < inject_Z k)%Q) by (rewrite (Zlt_Qlt 0 k) in Hk; exact Hk).
  pose proof (Z.div_mod m k ltac:(lia)) as Hdm.
  pose proof (Z.mod_pos_bound m k Hk) as Hr.
  split.
  - apply Qle_shift_div_l; [assumption|].
    rewrite <- inject_Z_mult, <- Zle_Qle. nia.
  - apply Qlt_shift_div_r; [assumption|].
    change 1%Q with (inject_Z 1).
    rewrite <- inject_Z_plus, <- inject_Z_mult, <- Zlt_Qlt. nia.
Qed.

Lemma is_trunc_Qeq (q q' : Q) (n : Z) :
  (q == q')%Q -> is_trunc q n -> is_trunc q' n.
Proof.
  unfold is_trunc. intros E [Hp Hn]. split; intros H; rewrite <- E in *; auto.
Qed.

Lemma is_trunc_integer (n : Z) : is_trunc (inject_Z n) n.
Proof. unfold is_trunc. split; intros _; lra. Qed.

Lemma is_trunc_opp (q : Q) (n : Z) : is_trunc q n -> is_trunc (- q) (- n).
Proof.
  unfold is_trunc. rewrite inject_Z_opp. intros [Hp Hn].
  split; intros H; [destruct Hn | destruct Hp]; lra.
Qed.

Lemma is_trunc_floor_div (m k : Z) :
  0 <= m -> 0 < k -> is_trunc (inject_Z m * / inject_Z k) (m / k).
Proof.
  intros Hm Hk. destruct (floor_div_bounds m k Hk) as [Hlo Hhi].
  assert (Hq : (0 <= inject_Z (m / k))%Q)
    by (rewrite <- (Zle_Qle 0); apply Z.div_pos; lia).
  unfold is_trunc. split; intros H; lra.
Qed.

Lemma F2Q_finite (s : bool) (m : positive) (e : Z) :
  (F2Q (S754_finite s m e)
   == (if s then - 1 else 1) * (inject_Z (Zpos m) * 2 ^ e))%Q.
Proof.
  cbn [F2Q]. destruct s.
  - change (Zneg m) with (- Zpos m). rewrite inject_Z_opp. ring.
  - ring.
Qed.

Lemma int_of_float_trunc (x : float) :
  is_finite x = true ->
  exists n, int_of_float x = Ok n /\ is_trunc (F2Q x) n.
Proof.
  destruct x as [s| | |s m e]; try discriminate; intros _.
  - exists 0. split; [reflexivity|]. exact (is_trunc_integer 0).
  - cbn [int_of_float]. eexists. split; [reflexivity|].
    apply (is_trunc_Qeq _ _ _ (Qeq_sym _ _ (F2Q_finite s m e))).
    assert (Hmag : is_trunc (inject_Z (Zpos m) * 2 ^ e)
                     match e with
                     | Zneg p => Zpos m / 2 ^ Zpos p
                     | _ => Zpos m * 2 ^ e
                     end).
    { destruct e as [|p|p].
      - eapply is_trunc_Qeq; [|apply is_trunc_integer].
        rewrite inject_Z_mult, Qpower_2_nonneg by lia. reflexivity.
      - eapply is_trunc_Qeq; [|apply is_trunc_integer].
        rewrite inject_Z_mult, Qpower_2_nonneg by lia. reflexivity.
      - eapply is_trunc_Qeq; [|apply is_trunc_floor_div].
        + rewrite Qpower_2_neg. reflexivity.
        + lia.
        + apply Z.pow_pos_nonneg; lia. }
    destruct s.
    + eapply is_trunc_Qeq; [|apply is_trunc_opp, Hmag]. ring.
    + eapply is_trunc_Qeq; [|apply Hmag]. ring.
Qed.

(** ** Encoders *)

Lemma clamp_range (lo hi n : Z) : lo <= hi -> lo <= clamp lo hi n <= hi.
Proof. unfold clamp. lia. Qed.

Lemma encode_packs_clamped (s : numeric_signal) (v : float) (n : Z) :
  int_of_float (scaled s v) = Ok n ->
  exists b0 b1,
    encode s v = Ok [b0; b1]
    /\ unpack s [b0; b1] = Ok (clamp (clamp_lo s) (clamp_hi s) n).
Proof.
  intros Hn.
  destruct s; cbn [encode unpack clamp_lo clamp_hi scaled scale] in *;
    unfold encode_rpm, encode_temp, encode_torque, encode_voltage,
      encode_current; rewrite Hn; cbn [bind]; unfold clamp.
  all: match goal with
       | |- context [struct.pack_H ?c] => apply (unpack_H_pack_H c); lia
       | |- context [struct.pack_h ?c] => apply (unpack_h_pack_h c); lia
       end.
Qed.

(** The float literals are valid binary64 numbers, each within half a unit
    in the last place of the decimal it is written as. *)
Lemma float_literals_nearest :
  valid_binary 53 1024 float_82_3 = true
  /\ valid_binary 53 1024 float_0_58 = true
  /\ valid_binary 53 1024 float_1_75 = true
  /\ (Qabs (F2Q float_82_3 - (823 # 10)) <= 1 # 2 ^ 47)%Q
  /\ (Qabs (F2Q float_0_58 - (58 # 100)) <= 1 # 2 ^ 54)%Q
  /\ (F2Q float_1_75 == 7 # 4)%Q.
Proof.
  repeat split; vm_compute; congruence.
Qed.

(** C2, as the code has it: each encoder scales the input, truncates the
    product toward zero with [int(...)], clamps the integer to the range of
    the signal and packs it; the two bytes read back as that clamped
    integer. *)
Theorem encode_truncates_then_clamps :
  forall s v,
    is_finite (scaled s v) = true ->
    exists n b0 b1,
      int_of_float (scaled s v) = Ok n
      /\ is_trunc (F2Q (scaled s v)) n
      /\ encode s v = Ok [b0; b1]
      /\ unpack s [b0; b1] = Ok (clamp (clamp_lo s) (clamp_hi s) n).
Proof.
  intros s v Hfin.
  destruct (int_of_float_trunc _ Hfin) as [n [Hn Ht]].
  destruct (encode_packs_clamped s v n Hn) as [b0 [b1 [He Hu]]].
  exists n, b0, b1. auto.
Qed.

Lemma encode_truncates_then_clamps_witness :
  exists n b0 b1,
    int_of_float (scaled Torque float_0_58) = Ok n
    /\ is_trunc (F2Q (scaled Torque float_0_58)) n
    /\ encode Torque float_0_58 = Ok [b0; b1]
    /\ unpack Torque [b0; b1] = Ok (clamp (clamp_lo Torque) (clamp_hi Torque) n).
Proof.
  apply (encode_truncates_then_clamps Torque float_0_58).
  vm_compute. reflexivity.
Defined.

(** C2 as stated fails: [encode_rpm(1.75)] packs 1, and the integer nearest
    to 1.75 is 2. *)
Lemma encode_rpm_1_75_not_rounded :
  ~ (forall s v b0 b1 n,
       encode s v = Ok [b0; b1] -> unpack s [b0; b1] = Ok n ->
       exists k, nearest_integer (F2Q (scaled s v)) k
                 /\ n = clamp (clamp_lo s) (clamp_hi s) k).
Proof.
  intros H.
  destruct (H Rpm float_1_75 x00 x01 1) as [k [Hk Hc]].
  - vm_compute. reflexivity.
  - vm_compute. reflexivity.
  - cbn [clamp_lo clamp_hi] in Hc. unfold clamp in Hc.
    assert (k = 1) by lia. subst k.
    unfold nearest_integer in Hk. vm_compute in Hk. apply Hk. reflexivity.
Qed.


(** ** Rounding to binary64 *)

Lemma digits2_pos_size (p : positive) : digits2_pos p = Pos.size p.
Proof. induction p as [p IH|p IH|]; cbn; congruence. Qed.

Lemma digits2_pos_bounds (p : positive) :
  2 ^ (Zpos (digits2_pos p) - 1) <= Zpos p < 2 ^ Zpos (digits2_pos p).
Proof.
  rewrite digits2_pos_size.
  pose proof (Pos.size_gt p) as Hgt. pose proof (Pos.size_le p) as Hle.
  apply Pos2Z.pos_lt_pos in Hgt. apply Pos2Z.pos_le_pos in Hle.
  rewrite Pos2Z.inj_pow in Hgt, Hle.
  change (Zpos p~0) with (2 * Zpos p) in Hle.
  assert (E : 2 ^ Zpos (Pos.size p) = 2 * 2 ^ (Zpos (Pos.size p) - 1)).
  { rewrite <- (Z.pow_succ_r 2) by lia. f_equal. lia. }
  lia.
Qed.

Lemma shr_inv_init (M : Z) :
  0 <= M -> shr_inv M 0 (Build_shr_record M false false).
Proof.
  intros HM. unfold shr_inv. cbn [shr_m shr_r shr_s].
  rewrite Z.pow_0_r. repeat split; intros; try lia.
Qed.

Lemma shr_1_halves (mrs : shr_record) :
  0 <= shr_m mrs ->
  shr_m mrs = 2 * shr_m (shr_1 mrs) + (if shr_r (shr_1 mrs) then 1 else 0)
  /\ 0 <= shr_m (shr_1 mrs)
  /\ shr_s (shr_1 mrs) = shr_r mrs || shr_s mrs.
Proof.
  destruct mrs as [m r s]. cbn [shr_m]. intros Hm.
  destruct m as [|q|q]; [| |lia]; [|destruct q as [q|q|]];
    cbn [shr_1 shr_m shr_r shr_s]; repeat split; lia.
Qed.

Lemma shr_inv_step (M k : Z) (mrs : shr_record) :
  0 <= k -> shr_inv M k mrs -> shr_inv M (k + 1) (shr_1 mrs).
Proof.
  intros Hk [Hm [Hrem [Hrf [Hrt Hs]]]].
  assert (E : 2 ^ (k + 1) = 2 * 2 ^ k)
    by (rewrite Z.pow_add_r, Z.pow_1_r; lia).
  assert (Hp : 0 < 2 ^ k) by (apply Z.pow_pos_nonneg; lia).
  destruct (shr_1_halves mrs Hm) as [Hh [Hm' Hs']].
  unfold shr_inv. rewrite E, Hs'. clear E Hs'.
  set (P := 2 ^ k) in *. set (m := shr_m mrs) in *.
  set (m' := shr_m (shr_1 mrs)) in *.
  destruct (shr_r (shr_1 mrs)).
  - split; [lia|]. split; [nia|]. split; [discriminate|].
    split; [intros _; nia|].
    intros Ho. apply orb_false_iff in Ho. destruct Ho as [Hr0 Hs0].
    specialize (Hrf Hr0). specialize (Hs Hs0). right. nia.
  - split; [lia|]. split; [nia|]. split; [intros _; nia|].
    split; [discriminate|].
    intros Ho. apply orb_false_iff in Ho. destruct Ho as [Hr0 Hs0].
    specialize (Hrf Hr0). specialize (Hs Hs0). left. nia.
Qed.

Lemma shr_inv_iter (M : Z) (p : positive) :
  forall k mrs,
    0 <= k -> shr_inv M k mrs ->
    shr_inv M (k + Zpos p) (iter_pos shr_1 p mrs).
Proof.
  induction p as [p IH|p IH|]; intros k mrs Hk Hinv; cbn [iter_pos].
  - replace (k + Zpos p~1) with (k + 1 + Zpos p + Zpos p) by lia.
    apply IH; [lia|]. apply IH; [lia|]. apply shr_inv_step; assumption.
  - replace (k + Zpos p~0) with (k + Zpos p + Zpos p) by lia.
    apply IH; [lia|]. apply IH; assumption.
  - apply shr_inv_step; assumption.
Qed.

(** Shifting an exact mantissa by [n] bits. *)
Lemma shr_exact (M e n : Z) :
  0 <= M ->
  (n <= 0 /\ shr (Build_shr_record M false false) e n
             = (Build_shr_record M false false, e))
  \/ (0 < n /\ exists mrs,
         shr (Build_shr_record M false false) e n = (mrs, e + n)
         /\ shr_inv M n mrs).
Proof.
  intros HM. destruct n as [|p|p].
  - left. split; [lia | reflexivity].
  - right. split; [lia|]. eexists. split; [reflexivity|].
    apply (shr_inv_iter M p 0); [lia | apply shr_inv_init; assumption].
  - left. split; [lia | reflexivity].
Qed.

(** Rounding to nearest even moves the shifted mantissa by at most half a
    unit. *)
Lemma round_nearest_even_inv (M k : Z) (mrs : shr_record) :
  0 < k -> shr_inv M k mrs ->
  let m := round_nearest_even (shr_m mrs) (loc_of_shr_record mrs) in
  shr_m mrs <= m <= shr_m mrs + 1
  /\ 2 * Z.abs (m * 2 ^ k - M) <= 2 ^ k.
Proof.
  intros Hk [Hm [Hrem [Hrf [Hrt Hs]]]].
  assert (Hp : 0 < 2 ^ k) by (apply Z.pow_pos_nonneg; lia).
  set (P := 2 ^ k) in *.
  destruct mrs as [m [] []]; cbn [shr_m shr_r shr_s] in *;
    cbn [loc_of_shr_record round_nearest_even].
  - specialize (Hrt eq_refl). split; nia.
  - specialize (Hrt eq_refl). specialize (Hs eq_refl).
    destruct (Z.even m); split; nia.
  - specialize (Hrf eq_refl). split; nia.
  - specialize (Hrf eq_refl). split; nia.
Qed.

Lemma fexp_binary64 (e : Z) : fexp 53 1024 e = Z.max (e - 53) (-1074).
Proof. reflexivity. Qed.

Lemma shr_fexp_exact (m e : Z) :
  0 <= m ->
  let n := fexp 53 1024 (Zdigits2 m + e) - e in
  (n <= 0 /\ shr_fexp 53 1024 m e loc_Exact
             = (Build_shr_record m false false, e))
  \/ (0 < n /\ exists mrs,
         shr_fexp 53 1024 m e loc_Exact = (mrs, e + n) /\ shr_inv m n mrs).
Proof.
  intros Hm n. unfold shr_fexp. cbn [shr_record_of_loc].
  apply shr_exact. assumption.
Qed.

Lemma pow2_lt_exponent (a b : Z) : 0 <= a -> 2 ^ a < 2 ^ b -> a < b.
Proof.
  intros Ha H. destruct (Z.lt_ge_cases a b) as [|Hge]; [assumption|].
  exfalso.
  destruct (Z.lt_ge_cases b 0) as [Hb|Hb].
  - rewrite (Z.pow_neg_r 2 b) in H by assumption.
    pose proof (Z.pow_pos_nonneg 2 a ltac:(lia) Ha). lia.
  - pose proof (Z.pow_le_mono_r 2 b a ltac:(lia) Hge). lia.
Qed.

(** Rounding an exact mantissa [M] at exponent [E] whose value is below
    [2 ^ b]: the result is a zero or a finite float [V * 2 ^ E], and [V] is
    [M] itself or differs from it by at most half a unit of an exponent that
    is at most [b - 53]. *)
Lemma binary_round_aux_bound (b : Z) (s : bool) (M : positive) (E : Z) :
  -1021 <= b <= 971 ->
  Zpos M < 2 ^ (b - E) ->
  exists V : Z,
    0 <= V
    /\ ((binary_round_aux 53 1024 s (Zpos M) E loc_Exact = S754_zero s
         /\ V = 0)
        \/ exists m e,
            binary_round_aux 53 1024 s (Zpos M) E loc_Exact
            = S754_finite s m e
            /\ E <= e /\ V = Zpos m * 2 ^ (e - E))
    /\ (V = Zpos M
        \/ exists n, 0 < n /\ n + E <= b - 53
                     /\ 2 * Z.abs (V - Zpos M) <= 2 ^ n).
Proof.
  intros Hb Hmag.
  destruct (digits2_pos_bounds M) as [Hdlo Hdhi].
  set (d := Zpos (digits2_pos M)) in *.
  assert (Hdpos : 0 < d) by (unfold d; lia).
  assert (Hd : d - 1 < b - E) by (apply pow2_lt_exponent; lia).
  unfold binary_round_aux.
  pose proof (shr_fexp_exact (Zpos M) E ltac:(lia)) as Hstage.
  cbn [Zdigits2] in Hstage. fold d in Hstage.
  rewrite fexp_binary64 in Hstage. cbv zeta in Hstage.
  set (n := Z.max (d + E - 53) (-1074) - E) in *.
  destruct Hstage as [[Hn Hshr]|[Hn [mrs [Hshr Hinv]]]]; rewrite Hshr.
  - (* the mantissa already fits *)
    cbn [shr_m loc_of_shr_record round_nearest_even]. rewrite Hshr.
    cbn [shr_m].
    replace (E <=? 1024 - 53) with true by (symmetry; apply Z.leb_le; lia).
    assert (HE : E < b) by (unfold n in Hn; lia).
    exists (Zpos M). split; [lia|]. split; [|left; reflexivity].
    right. exists M, E. split; [reflexivity|]. split; [lia|].
    rewrite Z.sub_diag. lia.
  - (* the mantissa is shifted and rounded *)
    destruct (round_nearest_even_inv _ _ _ Hn Hinv) as [Hm1 Herr].
    set (m1 := round_nearest_even (shr_m mrs) (loc_of_shr_record mrs)) in *.
    assert (Hpn : 0 < 2 ^ n) by (apply Z.pow_pos_nonneg; lia).
    assert (Hm53 : shr_m mrs < 2 ^ 53).
    { destruct Hinv as [Hm0 [Hrem _]].
      assert (Hle : 2 ^ d <= 2 ^ (n + 53))
        by (apply Z.pow_le_mono_r; unfold n; lia).
      rewrite Z.pow_add_r, Z.mul_comm in Hle by lia.
      apply (Z.mul_lt_mono_pos_r (2 ^ n)); lia. }
    assert (Hm0 : 0 <= shr_m mrs) by (destruct Hinv; assumption).
    exists (m1 * 2 ^ n). split; [nia|].
    split; [|right; exists n; split; [lia|]; split; [unfold n; lia|]; exact Herr].
    remember (E + n) as e1 eqn:He1.
    assert (He1' : -1074 <= e1 <= b - 53) by (unfold n in He1; lia).
    pose proof (shr_fexp_exact m1 e1 ltac:(lia)) as Hstage2.
    rewrite fexp_binary64 in Hstage2. cbv zeta in Hstage2.
    destruct m1 as [|q|q]; [| |lia]; cbn [Zdigits2] in Hstage2.
    + destruct Hstage2 as [[_ Hshr2]|[Hn2 _]]; [|lia].
      rewrite Hshr2. cbn [shr_m]. left. split; [reflexivity | lia].
    + destruct (digits2_pos_bounds q) as [Hqlo Hqhi].
      set (dq := Zpos (digits2_pos q)) in *.
      assert (Hdqpos : 0 < dq) by (unfold dq; lia).
      destruct Hstage2 as [[Hn2 Hshr2]|[Hn2 [mrs2 [Hshr2 Hinv2]]]].
      * rewrite Hshr2. cbn [shr_m].
        replace (e1 <=? 1024 - 53) with true
          by (symmetry; apply Z.leb_le; lia).
        right. exists q, e1. split; [reflexivity|]. split; [lia|].
        f_equal. f_equal. lia.
      * assert (Hq54 : Zpos q < 2 ^ 54)
          by (change (2 ^ 54) with (2 * 2 ^ 53); lia).
        assert (Hdq : dq - 1 < 54) by (apply pow2_lt_exponent; lia).
        assert (Hdq54 : dq = 54) by lia.
        rewrite Hdq54 in Hshr2, Hinv2, Hqlo.
        replace (Z.max (54 + e1 - 53) (-1074) - e1) with 1 in Hshr2, Hinv2
          by lia.
        change (2 ^ (54 - 1)) with (2 ^ 53) in Hqlo.
        assert (Hq : Zpos q = 2 ^ 53) by lia.
        destruct Hinv2 as [Hm2 [Hrem2 _]]. rewrite Hq in Hrem2.
        change (2 ^ 1) with 2 in Hrem2.
        change (2 ^ 53) with 9007199254740992 in Hrem2.
        assert (Hm2v : shr_m mrs2 = 4503599627370496) by lia.
        rewrite Hshr2, Hm2v.
        replace (e1 + 1 <=? 1024 - 53) with true
          by (symmetry; apply Z.leb_le; lia).
        right. exists 4503599627370496%positive, (e1 + 1).
        split; [reflexivity|]. split; [lia|].
        rewrite Hq. replace (e1 + 1 - E) with (n + 1) by lia.
        rewrite Z.pow_add_r by lia.
        change (2 ^ 53) with 9007199254740992. change (2 ^ 1) with 2. lia.
Qed.

(** ** The rounded product as a rational *)

Lemma Qpower_2_add (a b : Z) : (2 ^ (a + b) == 2 ^ a * 2 ^ b)%Q.
Proof. apply Qpower_plus. discriminate. Qed.

Lemma Qpower_2_le (a b : Z) : a <= b -> (2 ^ a <= 2 ^ b)%Q.
Proof. intros H. apply Qpower_le_compat_l; [assumption | discriminate]. Qed.

Lemma F2Q_rescaled (s : bool) (m : positive) (e E : Z) :
  E <= e ->
  (F2Q (S754_finite s m e)
   == (if s then - 1 else 1) * (inject_Z (Zpos m * 2 ^ (e - E)) * 2 ^ E))%Q.
Proof.
  intros He. rewrite F2Q_finite, inject_Z_mult.
  rewrite <- Qpower_2_nonneg by lia.
  replace e with (e - E + E) at 1 by lia.
  rewrite Qpower_2_add. ring.
Qed.

Lemma F2Q_product (sx sy : bool) (mx my : positive) (ex ey : Z) :
  (F2Q (S754_finite sx mx ex) * F2Q (S754_finite sy my ey)
   == (if xorb sx sy then - 1 else 1)
      * (inject_Z (Zpos (mx * my)) * 2 ^ (ex + ey)))%Q.
Proof.
  rewrite !F2Q_finite, Pos2Z.inj_mul, inject_Z_mult, Qpower_2_add.
  destruct sx, sy; cbn [xorb]; ring.
Qed.

Lemma Qabs_signed (s : bool) (q : Q) :
  (Qabs ((if s then - 1 else 1) * q) == Qabs q)%Q.
Proof.
  rewrite Qabs_Qmult. destruct s.
  - change (Qabs (- 1)) with 1%Q. ring.
  - change (Qabs 1) with 1%Q. ring.
Qed.

Lemma mantissa_below_pow2 (M : positive) (E b : Z) :
  (inject_Z (Zpos M) * 2 ^ E < 2 ^ b)%Q -> Zpos M < 2 ^ (b - E).
Proof.
  intros H.
  assert (HQ : (inject_Z (Zpos M) < 2 ^ (b - E))%Q).
  { apply (Qmult_lt_r _ _ (2 ^ E)); [apply Qpower_2_pos|].
    rewrite <- Qpower_2_add. replace (b - E + E) with b by lia. exact H. }
  destruct (Z.lt_ge_cases (b - E) 0) as [Hneg|Hpos].
  - exfalso.
    assert (H1 : (2 ^ (b - E) <= 2 ^ 0)%Q) by (apply Qpower_2_le; lia).
    assert (HM : (1 <= inject_Z (Zpos M))%Q)
      by (change 1%Q with (inject_Z 1); rewrite <- Zle_Qle; lia).
    change (2 ^ 0)%Q with 1%Q in H1. lra.
  - rewrite Qpower_2_nonneg in HQ by assumption.
    rewrite <- Zlt_Qlt in HQ. exact HQ.
Qed.

(** The binary64 product of two finite floats whose exact product is below
    [2 ^ b] in magnitude is finite and within [2 ^ (b - 54)] of it. *)
Lemma fmul_error (b : Z) (sx sy : bool) (mx my : positive) (ex ey : Z) :
  -1021 <= b <= 971 ->
  (inject_Z (Zpos (mx * my)) * 2 ^ (ex + ey) < 2 ^ b)%Q ->
  let x := S754_finite sx mx ex in
  let y := S754_finite sy my ey in
  is_finite (fmul x y) = true
  /\ (Qabs (F2Q (fmul x y) - F2Q x * F2Q y) <= 2 ^ (b - 54))%Q.
Proof.
  intros Hb Hmag x y.
  apply mantissa_below_pow2 in Hmag.
  destruct (binary_round_aux_bound b (xorb sx sy) (mx * my) (ex + ey) Hb Hmag)
    as [V [HV [Hres Herr]]].
  change (fmul x y)
    with (binary_round_aux 53 1024 (xorb sx sy) (Zpos (mx * my)) (ex + ey)
            loc_Exact).
  set (r := binary_round_aux 53 1024 (xorb sx sy) (Zpos (mx * my)) (ex + ey)
              loc_Exact) in *.
  set (E := ex + ey) in *. set (M := (mx * my)%positive) in *.
  set (sg := (if xorb sx sy then - 1 else 1)%Q).
  assert (Hfin : is_finite r = true).
  { destruct Hres as [[-> _]|[m [e [-> _]]]]; reflexivity. }
  assert (Hr : (F2Q r == sg * (inject_Z V * 2 ^ E))%Q).
  { destruct Hres as [[-> ->]|[m [e [-> [He ->]]]]].
    - cbn [F2Q]. change (inject_Z 0) with 0%Q. ring.
    - apply F2Q_rescaled. assumption. }
  split; [assumption|].
  unfold x, y. rewrite F2Q_product, Hr. fold E M sg.
  assert (Ed : (sg * (inject_Z V * 2 ^ E) - sg * (inject_Z (Zpos M) * 2 ^ E)
                == sg * (inject_Z (V - Zpos M) * 2 ^ E))%Q).
  { unfold Z.sub. rewrite inject_Z_plus, inject_Z_opp. ring. }
  rewrite Ed. unfold sg. rewrite Qabs_signed, Qabs_Qmult.
  rewrite (Qabs_pos (2 ^ E)) by (apply Qlt_le_weak, Qpower_2_pos).
  change (Qabs (inject_Z (V - Zpos M))) with (inject_Z (Z.abs (V - Zpos M))).
  pose proof (Qpower_2_pos E) as HpE.
  pose proof (Qpower_2_pos (b - 54)) as Hpb.
  destruct Herr as [->|[n [Hn [HnE Hle]]]].
  - rewrite Z.sub_diag. change (inject_Z (Z.abs 0)) with 0%Q. lra.
  - rewrite Zle_Qle, inject_Z_mult, <- Qpower_2_nonneg in Hle by lia.
    change (inject_Z 2) with 2%Q in Hle.
    assert (H1 : (2 * inject_Z (Z.abs (V - Zpos M)) * 2 ^ E <= 2 ^ n * 2 ^ E)%Q)
      by (apply Qmult_le_compat_r; [exact Hle | lra]).
    rewrite <- Qpower_2_add in H1.
    assert (H2 : (2 ^ (n + E) <= 2 ^ (b - 53))%Q) by (apply Qpower_2_le; lia).
    assert (H3 : (2 ^ (b - 53) == 2 * 2 ^ (b - 54))%Q).
    { replace (b - 53) with (1 + (b - 54)) by lia.
      rewrite Qpower_2_add. reflexivity. }
    rewrite H3 in H2. lra.
Qed.

(** ** [float(n)] is exact below [2 ^ 53] *)

Lemma binary_round_aux_no_shift (s : bool) (M : positive) (E : Z) :
  fexp 53 1024 (Zpos (digits2_pos M) + E) <= E -> E <= 971 ->
  binary_round_aux 53 1024 s (Zpos M) E loc_Exact = S754_finite s M E.
Proof.
  intros Hf HE. unfold binary_round_aux.
  destruct (shr_fexp_exact (Zpos M) E ltac:(lia)) as
    [[_ Hshr]|[Hn _]]; [|cbn [Zdigits2] in Hn; lia].
  rewrite Hshr. cbn [shr_m loc_of_shr_record round_nearest_even].
  rewrite Hshr. cbn [shr_m].
  replace (E <=? 1024 - 53) with true by (symmetry; apply Z.leb_le; lia).
  reflexivity.
Qed.

Lemma iter_xO_value (p k : positive) :
  Zpos (Pos.iter xO p k) = Zpos p * 2 ^ Zpos k.
Proof.
  induction k as [|k IH] using Pos.peano_ind.
  - cbn [Pos.iter]. lia.
  - rewrite Pos.iter_succ, Pos2Z.inj_succ, Z.pow_succ_r by lia.
    change (Zpos (Pos.iter xO p k)~0) with (2 * Zpos (Pos.iter xO p k)).
    rewrite IH. lia.
Qed.

Lemma iter_xO_digits (p k : positive) :
  Zpos (digits2_pos (Pos.iter xO p k)) = Zpos (digits2_pos p) + Zpos k.
Proof.
  induction k as [|k IH] using Pos.peano_ind.
  - cbn [Pos.iter digits2_pos]. lia.
  - rewrite Pos.iter_succ. cbn [digits2_pos].
    rewrite Pos2Z.inj_succ, IH. lia.
Qed.

Lemma binary_round_exact (s : bool) (p : positive) :
  Zpos p < 2 ^ 53 ->
  exists m e,
    binary_round 53 1024 s p 0 = S754_finite s m e
    /\ e <= 0 /\ Zpos m = Zpos p * 2 ^ (- e).
Proof.
  intros Hp. unfold binary_round.
  destruct (digits2_pos_bounds p) as [Hlo Hhi].
  set (d := Zpos (digits2_pos p)) in *.
  assert (Hdpos : 0 < d) by (unfold d; lia).
  assert (Hd : d - 1 < 53) by (apply pow2_lt_exponent; lia).
  rewrite Z.add_0_r, fexp_binary64. unfold shl_align.
  replace (Z.max (d - 53) (-1074)) with (d - 53) by lia.
  rewrite Z.sub_0_r.
  destruct (d - 53) as [|k|k] eqn:Ek; [|lia|].
  - exists p, 0. split; [|split; [lia | cbn; lia]].
    apply binary_round_aux_no_shift; [|lia].
    fold d. rewrite fexp_binary64. lia.
  - exists (Pos.iter xO p k), (Zneg k). split; [|split; [lia|]].
    + apply binary_round_aux_no_shift; [|lia].
      rewrite iter_xO_digits, fexp_binary64. fold d. lia.
    + rewrite iter_xO_value. reflexivity.
Qed.

Lemma float_of_int_exact (n : Z) :
  Z.abs n < 2 ^ 53 ->
  is_finite (float_of_int n) = true
  /\ (F2Q (float_of_int n) == inject_Z n)%Q.
Proof.
  intros Hn. unfold float_of_int, binary_normalize.
  assert (Hval : forall s p, Zpos p < 2 ^ 53 ->
            is_finite (binary_round 53 1024 s p 0) = true
            /\ (F2Q (binary_round 53 1024 s p 0)
                == (if s then - 1 else 1) * inject_Z (Zpos p))%Q).
  { intros s p Hp.
    destruct (binary_round_exact s p Hp) as [m [e [-> [He Hm]]]].
    split; [reflexivity|].
    rewrite F2Q_finite, Hm, inject_Z_mult.
    rewrite <- Qpower_2_nonneg by lia.
    assert (E1 : (2 ^ (- e) * 2 ^ e == 1)%Q).
    { rewrite <- Qpower_2_add. replace (- e + e) with 0 by lia. reflexivity. }
    rewrite <- Qmult_assoc, E1. ring. }
  destruct n as [|p|p].
  - split; reflexivity.
  - destruct (Hval false p ltac:(lia)) as [Hf Hq].
    split; [assumption|]. rewrite Hq. ring.
  - destruct (Hval true p ltac:(lia)) as [Hf Hq].
    split; [assumption|]. rewrite Hq.
    change (Zneg p) with (- Zpos p). rewrite inject_Z_opp. ring.
Qed.

(** ** The decoder on every packable integer *)

Lemma In_Zrange (lo : Z) (len : nat) (n : Z) :
  lo <= n < lo + Z.of_nat len -> In n (Zrange lo len).
Proof.
  intros Hn. unfold Zrange. apply in_map_iff.
  exists (Z.to_nat (n - lo)). split; [lia|].
  apply in_seq. lia.
Qed.

Lemma quotient_table_10 : quotient_table_ok 10 (-3276) 6553 = true.
Proof. vm_cast_no_check (eq_refl true). Qed.

Lemma quotient_table_100 : quotient_table_ok 100 (-3276) 3276 = true.
Proof. vm_cast_no_check (eq_refl true). Qed.

Lemma quotient_table_close (sc lo hi raw : Z) :
  quotient_table_ok sc lo hi = true -> lo <= raw <= hi ->
  (Qabs (F2Q (fdiv (float_of_int raw) (float_of_int sc)) * inject_Z sc
         - inject_Z raw)
   <= inject_Z sc * (1 # 2 ^ 44))%Q.
Proof.
  intros Ht Hr. apply Qle_bool_iff.
  unfold quotient_table_ok in Ht. rewrite forallb_forall in Ht.
  apply Ht, In_Zrange. lia.
Qed.

Lemma decode_value_close (s : numeric_signal) (raw : Z) :
  clamp_lo s <= raw <= clamp_hi s ->
  (Qabs (F2Q (decode_value s raw) * inject_Z (scale s) - inject_Z raw)
   <= inject_Z (scale s) * (1 # 2 ^ 44))%Q.
Proof.
  intros Hr.
  destruct s; cbn [clamp_lo clamp_hi scale decode_value] in *.
  - destruct (float_of_int_exact raw) as [_ Hq].
    { change (2 ^ 53) with 9007199254740992. lia. }
    rewrite Hq.
    assert (E : (inject_Z raw * inject_Z 1 - inject_Z raw == 0)%Q)
      by (change (inject_Z 1) with 1%Q; ring).
    rewrite E. vm_compute. discriminate.
  - apply (quotient_table_close 10 (-3276) 6553);
      [exact quotient_table_10 | lia].
  - apply (quotient_table_close 100 (-3276) 3276);
      [exact quotient_table_100 | lia].
  - apply (quotient_table_close 10 (-3276) 6553);
      [exact quotient_table_10 | lia].
  - apply (quotient_table_close 100 (-3276) 3276);
      [exact quotient_table_100 | lia].
Qed.

Lemma decode_frame_value (s : numeric_signal) (b0 b1 : byte) (raw : Z) :
  unpack s [b0; b1] = Ok raw ->
  exists frame,
    decode_frame (signal_id s) [b0; b1] = Ok (Some frame)
    /\ value frame = decode_value s raw.
Proof.
  intros Hu. rewrite decode_frame_numeric.
  change (firstn 2 [b0; b1]) with [b0; b1]. rewrite Hu.
  destruct s; eexists; split; reflexivity.
Qed.

(** ** Round trip *)

(** Multiplying by the scale factor, for a value whose exact product is
    below [2 ^ 13] in magnitude: the binary64 product is finite and within
    [2 ^ -41] of the exact one. *)
Lemma fmul_scale_error (v : float) (sc : Z) (mc : positive) (ec : Z) :
  float_of_int sc = S754_finite false mc ec ->
  (F2Q (S754_finite false mc ec) == inject_Z sc)%Q ->
  is_finite v = true ->
  (- (8191) <= F2Q v * inject_Z sc)%Q -> (F2Q v * inject_Z sc <= 8191)%Q ->
  is_finite (fmul v (float_of_int sc)) = true
  /\ (Qabs (F2Q (fmul v (float_of_int sc)) - F2Q v * inject_Z sc)
      <= 1 # 2 ^ 41)%Q.
Proof.
  intros Hc Hcq Hfin Hlo Hhi. rewrite Hc.
  destruct v as [s0| | |s0 m e]; try discriminate.
  - change (fmul (S754_zero s0) (S754_finite false mc ec))
      with (S754_zero (xorb s0 false)).
    split; [reflexivity|]. cbn [F2Q].
    assert (E : (0 - 0 * inject_Z sc == 0)%Q) by ring.
    rewrite E. vm_compute. discriminate.
  - pose proof (F2Q_product s0 false m mc e ec) as Hprod.
    rewrite Hcq, xorb_false_r in Hprod.
    pose proof (Qpower_2_pos (e + ec)) as Hpow.
    assert (Hmag : (inject_Z (Zpos (m * mc)) * 2 ^ (e + ec) < 2 ^ 13)%Q).
    { change (2 ^ 13)%Q with 8192%Q.
      rewrite Hprod in Hlo, Hhi. destruct s0; lra. }
    destruct (fmul_error 13 s0 false m mc e ec ltac:(lia) Hmag) as [Hf Herr].
    split; [exact Hf|].
    rewrite Hcq in Herr. exact Herr.
Qed.

Lemma float_of_int_10 :
  float_of_int 10 = S754_finite false 5629499534213120 (-49)
  /\ (F2Q (S754_finite false 5629499534213120 (-49)) == inject_Z 10)%Q.
Proof. split; vm_compute; reflexivity. Qed.

Lemma float_of_int_100 :
  float_of_int 100 = S754_finite false 7036874417766400 (-46)
  /\ (F2Q (S754_finite false 7036874417766400 (-46)) == inject_Z 100)%Q.
Proof. split; vm_compute; reflexivity. Qed.




Lemma decode_value_zero (s : numeric_signal) :
  decode_value s 0 = S754_zero false.
Proof. destruct s; vm_compute; reflexivity. Qed.

(** The decoded value of a packed integer within the clamp range is a
    finite float, never [nan] or an infinity. *)
Lemma decode_value_finite (s : numeric_signal) (raw : Z) :
  clamp_lo s <= raw <= clamp_hi s ->
  is_finite (decode_value s raw) = true.
Proof.
  intros Hr.
  destruct (Z.eq_dec raw 0) as [->|Hnz];
    [rewrite decode_value_zero; reflexivity|].
  pose proof (decode_value_close s raw Hr) as Hc.
  apply Qabs_Qle_condition in Hc.
  change (1 # 2 ^ 44)%Q with (1 # 17592186044416)%Q in Hc.
  assert (Hone : (inject_Z raw <= - 1 \/ 1 <= inject_Z raw)%Q).
  { destruct (Z.lt_ge_cases raw 0) as [Hneg|Hpos].
    - left. change (- 1)%Q with (inject_Z (- 1)). rewrite <- Zle_Qle. lia.
    - right. change 1%Q with (inject_Z 1). rewrite <- Zle_Qle. lia. }
  destruct (decode_value s raw) eqn:Ed; try reflexivity; exfalso;
    cbn [F2Q] in Hc;
    destruct s; cbn [scale] in Hc;
    change (inject_Z 1) with 1%Q in Hc;
    change (inject_Z 10) with 10%Q in Hc;
    change (inject_Z 100) with 100%Q in Hc;
    destruct Hone; lra.
Qed.



(** * Further properties of the codec *)

Lemma encode_raises (s : numeric_signal) (v : float) (e : exn) :
  int_of_float (scaled s v) = Raise e -> encode s v = Raise e.
Proof.
  intros H.
  destruct s; cbn [encode scaled scale] in *;
    unfold encode_rpm, encode_temp, encode_torque, encode_voltage,
      encode_current; rewrite H; reflexivity.
Qed.

Lemma encode_ok_two_bytes (s : numeric_signal) (v : float) (bs : list byte) :
  encode s v = Ok bs -> exists b0 b1, bs = [b0; b1].
Proof.
  intros H.
  destruct (int_of_float (scaled s v)) as [n|e] eqn:Hn.
  - destruct (encode_packs_clamped s v n Hn) as [b0 [b1 [He _]]].
    rewrite He in H. injection H as <-. exists b0, b1. reflexivity.
  - rewrite (encode_raises s v e Hn) in H. discriminate H.
Qed.

Lemma encode_ok_finite (s : numeric_signal) (v : float) (bs : list byte) :
  encode s v = Ok bs -> is_finite (scaled s v) = true.
Proof.
  intros H.
  destruct (int_of_float (scaled s v)) as [n|e] eqn:Hn.
  - destruct (scaled s v); try discriminate Hn; reflexivity.
  - rewrite (encode_raises s v e Hn) in H. discriminate H.
Qed.

(** X1: an encoder that returns gives exactly two bytes, and then the
    float it handed to [int(...)] was finite.  An encoder raises exactly
    when that float is not finite: [ValueError] when it is a nan,
    [OverflowError] when it is an infinity, and nothing else;
    [struct.error] never escapes. *)
Theorem encode_two_bytes_or_not_finite :
  (forall s v bs, encode s v = Ok bs ->
     List.length bs = 2%nat /\ is_finite (scaled s v) = true)
  /\ (forall s v, scaled s v = S754_nan -> encode s v = Raise ValueError)
  /\ (forall s v sg, scaled s v = S754_infinity sg ->
        encode s v = Raise OverflowError)
  /\ (forall s v e, encode s v = Raise e ->
        is_finite (scaled s v) = false
        /\ ((scaled s v = S754_nan /\ e = ValueError)
            \/ (exists sg, scaled s v = S754_infinity sg
                           /\ e = OverflowError))).
Proof.
  split; [|split; [|split]].
  - intros s v bs H. split; [|exact (encode_ok_finite s v bs H)].
    destruct (encode_ok_two_bytes s v bs H) as [b0 [b1 ->]]. reflexivity.
  - intros s v H. apply encode_raises. rewrite H. reflexivity.
  - intros s v sg H. apply encode_raises. rewrite H. reflexivity.
  - intros s v e H.
    destruct (int_of_float (scaled s v)) as [n|e'] eqn:Hn.
    + destruct (encode_packs_clamped s v n Hn) as [b0 [b1 [He _]]].
      rewrite He in H. discriminate H.
    + rewrite (encode_raises s v e' Hn) in H. injection H as <-.
      destruct (scaled s v) as [sg|sg| |sg m ex]; cbn in Hn;
        try discriminate Hn; injection Hn as <-.
      * split; [reflexivity|]. right. exists sg. split; reflexivity.
      * split; [reflexivity|]. left. split; reflexivity.
Qed.

Lemma encode_two_bytes_or_not_finite_witness :
  (List.length [x00; x39] = 2%nat
   /\ is_finite (scaled Torque float_0_58) = true)
  /\ encode Temperature S754_nan = Raise ValueError
  /\ encode Temperature (S754_infinity true) = Raise OverflowError
  /\ (is_finite (scaled Rpm (S754_infinity false)) = false
      /\ ((scaled Rpm (S754_infinity false) = S754_nan
           /\ OverflowError = ValueError)
          \/ (exists sg, scaled Rpm (S754_infinity false) = S754_infinity sg
                         /\ OverflowError = OverflowError))).
Proof.
  split; [|split; [|split]].
  - apply (proj1 encode_two_bytes_or_not_finite Torque float_0_58).
    vm_compute. reflexivity.
  - apply (proj1 (proj2 encode_two_bytes_or_not_finite) Temperature S754_nan).
    vm_compute. reflexivity.
  - apply (proj1 (proj2 (proj2 encode_two_bytes_or_not_finite))
             Temperature (S754_infinity true) true).
    vm_compute. reflexivity.
  - apply (proj2 (proj2 (proj2 encode_two_bytes_or_not_finite))
             Rpm (S754_infinity false) OverflowError).
    vm_compute. reflexivity.
Defined.

Lemma clamp_bounds_ordered (s : numeric_signal) :
  clamp_lo s <= 0 <= clamp_hi s.
Proof. destruct s; cbn; lia. Qed.

Lemma Z_le_of_Q_lt_succ (a b : Z) :
  (inject_Z a < inject_Z b + 1)%Q -> a <= b.
Proof.
  change 1%Q with (inject_Z 1).
  rewrite <- inject_Z_plus, <- Zlt_Qlt. lia.
Qed.



Lemma is_trunc_monotone (q q' : Q) (n n' : Z) :
  is_trunc q n -> is_trunc q' n' -> (q <= q')%Q -> n <= n'.
Proof.
  intros [Hp Hn] [Hp' Hn'] Hle.
  destruct (Qlt_le_dec q 0) as [Hq|Hq];
    destruct (Qlt_le_dec q' 0) as [Hq'|Hq'].
  - specialize (Hn (Qlt_le_weak _ _ Hq)).
    specialize (Hn' (Qlt_le_weak _ _ Hq')).
    apply Z_le_of_Q_lt_succ. lra.
  - specialize (Hn (Qlt_le_weak _ _ Hq)). specialize (Hp' Hq').
    assert (n <= 0)
      by (apply Z_le_of_Q_lt_succ; change (inject_Z 0) with 0%Q; lra).
    assert (0 <= n')
      by (apply Z_le_of_Q_lt_succ; change (inject_Z 0) with 0%Q; lra).
    lia.
  - lra.
  - specialize (Hp Hq). specialize (Hp' Hq').
    apply Z_le_of_Q_lt_succ. lra.
Qed.

(** X3: the encoders preserve order. Of two inputs that both encode, the
    one with the smaller scaled value is packed as the smaller integer (or
    the same). *)
Theorem encode_monotone :
  forall s v w bv bw nv nw,
    encode s v = Ok bv -> encode s w = Ok bw ->
    unpack s bv = Ok nv -> unpack s bw = Ok nw ->
    (F2Q (scaled s v) <= F2Q (scaled s w))%Q ->
    nv <= nw.
Proof.
  intros s v w bv bw nv nw Hev Hew Huv Huw Hle.
  pose proof (encode_ok_finite s v bv Hev) as Hfv.
  pose proof (encode_ok_finite s w bw Hew) as Hfw.
  destruct (int_of_float_trunc _ Hfv) as [n [Hn Ht]].
  destruct (int_of_float_trunc _ Hfw) as [n' [Hn' Ht']].
  destruct (encode_packs_clamped s v n Hn) as [b0 [b1 [He Hu]]].
  destruct (encode_packs_clamped s w n' Hn') as [c0 [c1 [He' Hu']]].
  rewrite He in Hev. injection Hev as <-.
  rewrite He' in Hew. injection Hew as <-.
  rewrite Hu in Huv. injection Huv as <-.
  rewrite Hu' in Huw. injection Huw as <-.
  pose proof (is_trunc_monotone _ _ _ _ Ht Ht' Hle).
  unfold clamp. lia.
Qed.

Lemma encode_monotone_witness :
  encode Temperature float_0_58 = Ok [x00; x05]
  /\ encode Temperature float_82_3 = Ok [x03; x37]
  /\ 5 <= 823.
Proof.
  assert (H1 : encode Temperature float_0_58 = Ok [x00; x05])
    by (vm_compute; reflexivity).
  assert (H2 : encode Temperature float_82_3 = Ok [x03; x37])
    by (vm_compute; reflexivity).
  split; [exact H1|]. split; [exact H2|].
  apply (encode_monotone Temperature float_0_58 float_82_3
           [x00; x05] [x03; x37] 5 823 H1 H2).
  - reflexivity.
  - reflexivity.
  - vm_compute. discriminate.
Defined.

Lemma land_255_byte (flags : Z) : 0 <= Z.land flags 0xFF < 256.
Proof.
  change 0xFF with (Z.ones 8). rewrite Z.land_ones by lia.
  apply Z.mod_pos_bound. reflexivity.
Qed.

Lemma parse_error_flags_low_byte (flags : Z) :
  _parse_error_flags (Z.land flags 0xFF) = _parse_error_flags flags.
Proof.
  rewrite !parse_error_flags_spec. unfold decode_bits_spec, named_bits.
  cbn [filter]. rewrite !Z.land_spec. cbn [Z.testbit Pos.testbit].
  rewrite !andb_true_r. reflexivity.
Qed.

Lemma decode_encode_error (flags : Z) :
  decode_frame CAN_ID_ERROR (encode_error flags)
  = Ok (Some {| can_id := CAN_ID_ERROR; raw_bytes := encode_error flags;
                signal := "Hata Durumu";
                value := float_of_int (flags mod 256);
                unit := ""; is_error := true;
                error_list := _parse_error_flags flags |}).
Proof.
  rewrite decode_frame_error. unfold encode_error. cbv zeta.
  rewrite byte_to_of_Z by apply land_255_byte.
  rewrite parse_error_flags_low_byte.
  change 0xFF with (Z.ones 8). rewrite Z.land_ones by lia. reflexivity.
Qed.

(** X4: the fault byte over the wire. For any integer [flags], the frame
    decoded from [encode_error(flags)] under the fault identifier lists
    exactly the conditions of [flags], and its value is the low byte of
    [flags]. *)
Theorem fault_flags_over_the_wire :
  forall flags,
    decode_frame CAN_ID_ERROR (encode_error flags)
    = Ok (Some {| can_id := CAN_ID_ERROR; raw_bytes := encode_error flags;
                  signal := "Hata Durumu";
                  value := float_of_int (flags mod 256);
                  unit := ""; is_error := true;
                  error_list := _parse_error_flags flags |}).
Proof. exact decode_encode_error. Qed.

Lemma scale_positive (s : numeric_signal) : 1 <= scale s <= 100.
Proof. destruct s; cbn; lia. Qed.

(** The float handed to [int(...)] when a decoded value is encoded again
    is finite and within [2 ^ -37] of the packed integer. *)
Lemma rescaled_decode_value (s : numeric_signal) (raw : Z) :
  clamp_lo s <= raw <= clamp_hi s ->
  is_finite (scaled s (decode_value s raw)) = true
  /\ (Qabs (F2Q (scaled s (decode_value s raw)) - inject_Z raw)
      <= 1 # 2 ^ 37)%Q.
Proof.
  intros Hr.
  pose proof (decode_value_finite s raw Hr) as Hfin.
  pose proof (decode_value_close s raw Hr) as Hc.
  apply Qabs_Qle_condition in Hc.
  change (1 # 2 ^ 44)%Q with (1 # 17592186044416)%Q in Hc.
  assert (HrQ : (- (3276) <= inject_Z raw <= 65535)%Q).
  { change (- (3276))%Q with (inject_Z (-3276)).
    change 65535%Q with (inject_Z 65535). rewrite <- !Zle_Qle.
    destruct s; cbn [clamp_lo clamp_hi] in Hr; lia. }
  destruct float_of_int_10 as [H10 Hq10].
  destruct float_of_int_100 as [H100 Hq100].
  assert (Hmul : forall sc mc ec,
            float_of_int sc = S754_finite false mc ec ->
            (F2Q (S754_finite false mc ec) == inject_Z sc)%Q ->
            (- (6554) <= inject_Z raw <= 6554)%Q ->
            (- (inject_Z sc * (1 # 17592186044416))
             <= F2Q (decode_value s raw) * inject_Z sc - inject_Z raw
             <= inject_Z sc * (1 # 17592186044416))%Q ->
            (1 <= inject_Z sc <= 100)%Q ->
            is_finite (fmul (decode_value s raw) (float_of_int sc)) = true
            /\ (Qabs (F2Q (fmul (decode_value s raw) (float_of_int sc))
                      - inject_Z raw) <= 1 # 2 ^ 37)%Q).
  { intros sc mc ec Hsc Hscq Hraw Hclose Hscb.
    destruct (fmul_scale_error (decode_value s raw) sc mc ec Hsc Hscq Hfin)
      as [Hf He]; [nra | nra |].
    split; [exact Hf|].
    apply Qabs_Qle_condition in He. apply Qabs_Qle_condition.
    change (1 # 2 ^ 41)%Q with (1 # 2199023255552)%Q in He.
    change (1 # 2 ^ 37)%Q with (1 # 137438953472)%Q.
    split; nra. }
  destruct s; cbn [scaled scale clamp_lo clamp_hi] in *.
  - split; [exact Hfin|].
    apply Qabs_Qle_condition.
    change (1 # 2 ^ 37)%Q with (1 # 137438953472)%Q.
    change (inject_Z 1) with 1%Q in Hc. split; lra.
  - apply (Hmul 10 _ _ H10 Hq10); change (inject_Z 10) with 10%Q in *;
      try lra; try exact Hc.
    change (- (6554))%Q with (inject_Z (-6554)).
    change 6554%Q with (inject_Z 6554). rewrite <- !Zle_Qle. lia.
  - apply (Hmul 100 _ _ H100 Hq100); change (inject_Z 100) with 100%Q in *;
      try lra; try exact Hc.
    change (- (6554))%Q with (inject_Z (-6554)).
    change 6554%Q with (inject_Z 6554). rewrite <- !Zle_Qle. lia.
  - apply (Hmul 10 _ _ H10 Hq10); change (inject_Z 10) with 10%Q in *;
      try lra; try exact Hc.
    change (- (6554))%Q with (inject_Z (-6554)).
    change 6554%Q with (inject_Z 6554). rewrite <- !Zle_Qle. lia.
  - apply (Hmul 100 _ _ H100 Hq100); change (inject_Z 100) with 100%Q in *;
      try lra; try exact Hc.
    change (- (6554))%Q with (inject_Z (-6554)).
    change 6554%Q with (inject_Z 6554). rewrite <- !Zle_Qle. lia.
Qed.

Lemma Z_ge_of_Q_gt_pred (a b : Z) :
  (inject_Z a - 1 < inject_Z b)%Q -> a <= b.
Proof.
  intros H. apply Z_le_of_Q_lt_succ. lra.
Qed.

Lemma trunc_near_integer (q : Q) (n raw : Z) :
  is_trunc q n -> (Qabs (q - inject_Z raw) <= 1 # 2)%Q ->
  n = raw \/ n = raw - Z.sgn raw.
Proof.
  intros [Hp Hn] Hq. apply Qabs_Qle_condition in Hq.
  destruct (Z.lt_trichotomy raw 0) as [H|[->|H]].
  - assert (Hr : (inject_Z raw <= - 1)%Q)
      by (change (- 1)%Q with (inject_Z (- 1)); rewrite <- Zle_Qle; lia).
    specialize (Hn ltac:(lra)).
    assert (raw <= n) by (apply Z_ge_of_Q_gt_pred; lra).
    assert (n <= raw + 1)
      by (apply Z_le_of_Q_lt_succ; rewrite inject_Z_plus;
          change (inject_Z 1) with 1%Q; lra).
    rewrite (Z.sgn_neg raw) by assumption. lia.
  - change (inject_Z 0) with 0%Q in Hq. left.
    destruct (Qlt_le_dec q 0) as [Hs|Hs].
    + specialize (Hn (Qlt_le_weak _ _ Hs)).
      assert (0 <= n)
        by (apply Z_ge_of_Q_gt_pred; change (inject_Z 0) with 0%Q; lra).
      assert (n <= 0)
        by (apply Z_le_of_Q_lt_succ; change (inject_Z 0) with 0%Q; lra).
      lia.
    + specialize (Hp Hs).
      assert (0 <= n)
        by (apply Z_ge_of_Q_gt_pred; change (inject_Z 0) with 0%Q; lra).
      assert (n <= 0)
        by (apply Z_le_of_Q_lt_succ; change (inject_Z 0) with 0%Q; lra).
      lia.
  - assert (Hr : (1 <= inject_Z raw)%Q)
      by (change 1%Q with (inject_Z 1); rewrite <- Zle_Qle; lia).
    specialize (Hp ltac:(lra)).
    assert (n <= raw) by (apply Z_le_of_Q_lt_succ; lra).
    assert (raw - 1 <= n)
      by (apply Z_ge_of_Q_gt_pred; unfold Z.sub;
          rewrite inject_Z_plus; change (inject_Z (- (1))) with (- (1))%Q;
          lra).
    rewrite (Z.sgn_pos raw) by assumption. lia.
Qed.

(** X5: decoding a frame an encoder can produce and encoding the decoded
    value again gives the packed integer back or the next one toward
    zero; the second case occurs (the torque payload 00 39 comes back as
    00 38). *)
Theorem reencode_decoded_frame :
  (forall s b0 b1 raw frame,
     unpack s [b0; b1] = Ok raw ->
     clamp_lo s <= raw <= clamp_hi s ->
     decode_frame (signal_id s) [b0; b1] = Ok (Some frame) ->
     exists c0 c1 raw',
       encode s (value frame) = Ok [c0; c1]
       /\ unpack s [c0; c1] = Ok raw'
       /\ (raw' = raw \/ raw' = raw - Z.sgn raw))
  /\ (exists frame,
        decode_frame CAN_ID_TORQUE [x00; x39] = Ok (Some frame)
        /\ encode_torque (value frame) = Ok [x00; x38]).
Proof.
  split.
  - intros s b0 b1 raw frame Hu Hr Hd.
    destruct (decode_frame_value s b0 b1 raw Hu) as [frame' [Hd' Hv]].
    rewrite Hd in Hd'. injection Hd' as <-. rewrite Hv.
    destruct (rescaled_decode_value s raw Hr) as [Hfin Hclose].
    destruct (int_of_float_trunc _ Hfin) as [n [Hn Ht]].
    destruct (encode_packs_clamped s (decode_value s raw) n Hn)
      as [c0 [c1 [He Hu']]].
    assert (Hnear : n = raw \/ n = raw - Z.sgn raw).
    { apply (trunc_near_integer _ _ _ Ht).
      eapply Qle_trans; [exact Hclose|]. vm_compute. discriminate. }
    pose proof (clamp_bounds_ordered s) as Hb.
    exists c0, c1, n. split; [exact He|]. split; [|exact Hnear].
    rewrite Hu'. f_equal. unfold clamp.
    destruct (Z.lt_trichotomy raw 0) as [H|[H|H]].
    + rewrite (Z.sgn_neg raw) in Hnear by assumption. lia.
    + subst raw. cbn in Hnear. lia.
    + rewrite (Z.sgn_pos raw) in Hnear by assumption. lia.
  - exists (mkFrame CAN_ID_TORQUE [x00; x39] "Tork"
                    (S754_finite false 5134103575202365 (-53)) "N·m").
    split; reflexivity.
Qed.

Lemma reencode_decoded_frame_witness :
  exists c0 c1 raw',
    encode Torque (decode_value Torque 57) = Ok [c0; c1]
    /\ unpack Torque [c0; c1] = Ok raw'
    /\ (raw' = 57 \/ raw' = 57 - Z.sgn 57).
Proof.
  apply (proj1 reencode_decoded_frame Torque x00 x39 57
           (mkFrame CAN_ID_TORQUE [x00; x39] "Tork"
                    (decode_value Torque 57) "N·m")).
  - reflexivity.
  - cbn. lia.
  - vm_compute. reflexivity.
Defined.

(** * Display *)

Lemma length_append (a b : string) :
  String.length (a ++ b) = (String.length a + String.length b)%nat.
Proof. induction a as [|c a IH]; cbn; [reflexivity | rewrite IH; reflexivity]. Qed.

Lemma join_hex_length (l : list byte) :
  String.length (join " " (map format_02X l)) = (3 * List.length l - 1)%nat.
Proof.
  induction l as [|b l IH]; [reflexivity|].
  cbn [map join]. destruct l as [|b' l'].
  - reflexivity.
  - change (map format_02X (b' :: l'))
      with (format_02X b' :: map format_02X l') in *.
    cbv beta iota.
    rewrite !length_append, IH.
    change (String.length (format_02X b)) with 2%nat.
    cbn [String.length List.length]. lia.
Qed.

(** The value of a hexadecimal digit. *)
Lemma hex_digit_injective (m n : N) :
  (m < 16)%N -> (n < 16)%N -> hex_digit m = hex_digit n -> m = n.
Proof.
  intros Hm Hn.
  assert (Hcases : forall k, (k < 16)%N ->
            In k [0; 1; 2; 3; 4; 5; 6; 7; 8; 9; 10; 11; 12; 13; 14; 15]%N).
  { intros k Hk. cbn.
    destruct k as [|p]; [tauto|].
    do 4 (destruct p as [p|p|]; try tauto; try lia). }
  pose proof (Hcases m Hm) as Im. pose proof (Hcases n Hn) as In_.
  cbn in Im, In_.
  repeat (destruct Im as [<-|Im]; [|]); try contradiction;
    repeat (destruct In_ as [<-|In_]; [|]); try contradiction;
    intros H; try reflexivity; discriminate H.
Qed.

Lemma format_02X_injective (a b : byte) :
  format_02X a = format_02X b -> a = b.
Proof.
  unfold format_02X. intros H. injection H as Hhi Hlo.
  pose proof (Byte.to_N_bounded a) as Ha.
  pose proof (Byte.to_N_bounded b) as Hb.
  apply hex_digit_injective in Hhi;
    [|apply N.Div0.div_lt_upper_bound; lia
     |apply N.Div0.div_lt_upper_bound; lia].
  apply hex_digit_injective in Hlo;
    [|apply N.mod_lt; lia | apply N.mod_lt; lia].
  assert (E : Byte.to_N a = Byte.to_N b).
  { rewrite (N.div_mod (Byte.to_N a) 16), (N.div_mod (Byte.to_N b) 16) by lia.
    rewrite Hhi, Hlo. reflexivity. }
  pose proof (Byte.of_to_N a) as Ea. pose proof (Byte.of_to_N b) as Eb.
  rewrite E in Ea. congruence.
Qed.

Lemma join_hex_injective (l l' : list byte) :
  join " " (map format_02X l) = join " " (map format_02X l') -> l = l'.
Proof.
  revert l'. induction l as [|a l IH]; intros l' H.
  - destruct l' as [|b [|b' l']]; [reflexivity | discriminate H | discriminate H].
  - destruct l' as [|b l'].
    + destruct l as [|a' l]; discriminate H.
    + cbn [map join] in H.
      destruct l as [|a' l]; destruct l' as [|b' l'].
      * apply format_02X_injective in H. congruence.
      * cbn in H. injection H as _ _ H. discriminate H.
      * cbn in H. injection H as _ _ H. discriminate H.
      * change (map format_02X (a' :: l))
          with (format_02X a' :: map format_02X l) in H.
        change (map format_02X (b' :: l'))
          with (format_02X b' :: map format_02X l') in H.
        cbv beta iota in H.
        unfold format_02X at 1 3 in H. cbn [append] in H.
        injection H as Hhi Hlo Hrest.
        assert (Hab : format_02X a = format_02X b)
          by (unfold format_02X; congruence).
        apply format_02X_injective in Hab. subst b.
        f_equal. apply IH. exact Hrest.
Qed.

(** X6: [hex_str] has two digits per byte and one space between bytes, so
    [3 * n - 1] characters for [n >= 1] bytes and none for an empty
    payload, and two frames with the same [hex_str] have the same
    payload. *)
Theorem hex_str_faithful :
  (forall frame,
     String.length (hex_str frame)
     = (3 * List.length (raw_bytes frame) - 1)%nat)
  /\ (forall f g, hex_str f = hex_str g -> raw_bytes f = raw_bytes g).
Proof.
  split.
  - intros frame. apply join_hex_length.
  - intros f g. apply join_hex_injective.
Qed.

Lemma hex_str_faithful_witness :
  raw_bytes (mkFrame 1 [x03; x37] "a" (S754_zero false) "b")
  = raw_bytes (mkFrame 2 [x03; x37] "c" (S754_zero true) "d").
Proof.
  apply (proj2 hex_str_faithful). reflexivity.
Defined.

Lemma parse_error_flags_low_five (flags : Z) :
  _parse_error_flags (Z.land flags 0x1F) = _parse_error_flags flags.
Proof.
  rewrite !parse_error_flags_spec. unfold decode_bits_spec, named_bits.
  cbn [filter]. rewrite !Z.land_spec. cbn [Z.testbit Pos.testbit].
  rewrite !andb_true_r. reflexivity.
Qed.

Lemma parse_error_flags_nil (flags : Z) :
  _parse_error_flags flags = [] <-> Z.land flags 0x1F = 0.
Proof.
  split.
  - rewrite parse_error_flags_spec. unfold decode_bits_spec, named_bits.
    cbn [filter]. intros H.
    apply Z.bits_inj'. intros n Hn.
    rewrite Z.land_spec, Z.bits_0.
    destruct (Z.testbit flags 0) eqn:E0; [discriminate H|].
    destruct (Z.testbit flags 1) eqn:E1; [discriminate H|].
    destruct (Z.testbit flags 2) eqn:E2; [discriminate H|].
    destruct (Z.testbit flags 3) eqn:E3; [discriminate H|].
    destruct (Z.testbit flags 4) eqn:E4; [discriminate H|].
    destruct (Z.lt_ge_cases n 5) as [Hlt|Hge].
    + assert (Hc : n = 0 \/ n = 1 \/ n = 2 \/ n = 3 \/ n = 4) by lia.
      destruct Hc as [->|[->|[->|[->| ->]]]];
        rewrite ?E0, ?E1, ?E2, ?E3, ?E4; reflexivity.
    + rewrite (Z.bits_above_log2 0x1F n) by (cbn; lia).
      apply andb_false_r.
  - intros H. rewrite <- parse_error_flags_low_five, H. reflexivity.
Qed.

(** X7: how a fault frame is shown. For any payload under the fault
    identifier, [formatted_value] is "Sistem Normal" exactly when none of
    the five named bits of the first byte is set (an empty payload counts
    as 0), and otherwise the names joined by " | "; the frame is marked as
    an error frame either way. *)
Theorem fault_frame_display :
  forall data frame,
    decode_frame CAN_ID_ERROR data = Ok (Some frame) ->
    let flags := match data with b :: _ => byte_to_Z b | [] => 0 end in
    is_error frame = true
    /\ formatted_value frame
       = (if Z.land flags 0x1F =? 0 then "Sistem Normal"
          else join " | " (_parse_error_flags flags))
    /\ (formatted_value frame = "Sistem Normal" <-> Z.land flags 0x1F = 0).
Proof.
  intros data frame H flags. rewrite decode_frame_error in H.
  cbv zeta in H. fold flags in H. injection H as <-.
  split; [reflexivity|].
  unfold formatted_value. cbn [is_error error_list].
  pose proof (parse_error_flags_nil flags) as Hnil.
  destruct (Z.eqb_spec (Z.land flags 0x1F) 0) as [Hz|Hnz].
  - rewrite (proj2 Hnil Hz). split; [reflexivity | tauto].
  - destruct (_parse_error_flags flags) as [|name names] eqn:Ep.
    + exfalso. apply Hnz. apply Hnil. reflexivity.
    + split; [reflexivity|].
      split; [|intros Hz; contradiction].
      intros Hs. exfalso.
      rewrite parse_error_flags_spec in Ep.
      unfold decode_bits_spec, named_bits in Ep. cbn [filter] in Ep.
      destruct (Z.testbit flags 0), (Z.testbit flags 1), (Z.testbit flags 2),
        (Z.testbit flags 3), (Z.testbit flags 4);
        cbn in Ep; try discriminate Ep;
        injection Ep as <- <-; cbn in Hs; discriminate Hs.
Qed.

Lemma fault_frame_display_witness :
  let frame := {| can_id := CAN_ID_ERROR; raw_bytes := [xe0];
                  signal := "Hata Durumu"; value := float_of_int 224;
                  unit := ""; is_error := true; error_list := [] |} in
  is_error frame = true
  /\ formatted_value frame
     = (if Z.land (byte_to_Z xe0) 0x1F =? 0 then "Sistem Normal"
        else join " | " (_parse_error_flags (byte_to_Z xe0)))
  /\ (formatted_value frame = "Sistem Normal"
      <-> Z.land (byte_to_Z xe0) 0x1F = 0).
Proof.
  apply (fault_frame_display [xe0]). reflexivity.
Defined.

(** X8: [CAN_ID_LABELS] has a label for exactly the identifiers that
    [decode_frame] can decode. *)
Theorem labels_cover_decoded_ids :
  forall i,
    (exists label, dict_get CAN_ID_LABELS i = Some label)
    <-> (exists data frame, decode_frame i data = Ok (Some frame)).
Proof.
  intros i. split.
  - intros [label H]. unfold CAN_ID_LABELS in H. cbn [dict_get] in H.
    repeat match type of H with
    | (if i =? ?c then _ else _) = _ =>
        destruct (Z.eqb_spec i c) as [->|_];
        [exists [x00; x00]; eexists; vm_compute; reflexivity|]
    end.
    discriminate H.
  - intros [data [frame H]].
    assert (Hin : In i known_ids).
    { destruct (in_dec Z.eq_dec i known_ids) as [Hin|Hnot]; [assumption|].
      rewrite (decode_frame_unknown i data Hnot) in H. discriminate H. }
    cbn in Hin.
    repeat (destruct Hin as [<-|Hin]; [eexists; reflexivity|]).
    contradiction.
Qed.

(** ** Fixed-point formatting *)

Lemma round_half_even_near (num : Z) (den : positive) (K : Z) :
  2 * Z.abs (num - K * Zpos den) < Zpos den ->
  round_half_even num den = K.
Proof.
  intros H. unfold round_half_even.
  pose proof (Z.div_mod num (Zpos den) ltac:(lia)) as Hdm.
  pose proof (Z.mod_pos_bound num (Zpos den) ltac:(lia)) as Hr.
  set (q := num / Zpos den) in *. set (r := num mod Zpos den) in *.
  assert (Hq : K = q \/ K = q + 1) by nia.
  destruct (Z.compare_spec (2 * r) (Zpos den)) as [He|Hl|Hg];
    destruct Hq as [->| ->]; try reflexivity; try nia.
Qed.

Lemma round_half_even_close (num : Z) (den : positive) (K : Z) (x : Q) :
  (inject_Z num == x * inject_Z (Zpos den))%Q ->
  (Qabs (x - inject_Z K) <= 1 # 4)%Q ->
  round_half_even num den = K.
Proof.
  intros Hx Hc. apply round_half_even_near.
  apply Qabs_Qle_condition in Hc.
  assert (HD : (1 <= inject_Z (Zpos den))%Q)
    by (change 1%Q with (inject_Z 1); rewrite <- Zle_Qle; lia).
  assert (Hlo : (- inject_Z (Zpos den)
                 < 2 * (inject_Z num - inject_Z K * inject_Z (Zpos den)))%Q)
    by (rewrite Hx; nra).
  assert (Hhi : (2 * (inject_Z num - inject_Z K * inject_Z (Zpos den))
                 < inject_Z (Zpos den))%Q)
    by (rewrite Hx; nra).
  change 2%Q with (inject_Z 2) in Hlo, Hhi.
  rewrite <- inject_Z_mult, <- inject_Z_opp in Hlo.
  unfold Qminus in Hlo, Hhi.
  rewrite <- inject_Z_mult, <- inject_Z_opp, <- inject_Z_plus,
    <- inject_Z_mult, <- Zlt_Qlt in Hhi.
  rewrite <- inject_Z_opp, <- inject_Z_plus, <- inject_Z_mult, <- Zlt_Qlt
    in Hlo.
  lia.
Qed.

Lemma fixed_fraction_value (ndigits : nat) (m : positive) (e : Z) :
  let '(num, den) := fixed_fraction ndigits m e in
  (inject_Z num
   == inject_Z (Zpos m) * 2 ^ e * inject_Z (10 ^ Z.of_nat ndigits)
      * inject_Z (Zpos den))%Q.
Proof.
  unfold fixed_fraction. destruct e as [|p|p].
  - rewrite !inject_Z_mult. change (2 ^ 0)%Q with 1%Q.
    change (inject_Z (2 ^ 0)) with 1%Q. change (inject_Z 1) with 1%Q. ring.
  - rewrite !inject_Z_mult, (Qpower_2_nonneg (Zpos p)) by lia.
    change (inject_Z 1) with 1%Q. ring.
  - rewrite !inject_Z_mult, Qpower_2_neg, Pos2Z.inj_pow.
    assert (Hnz : ~ (inject_Z (2 ^ Zpos p) == 0)%Q).
    { intros H. pose proof (Z.pow_pos_nonneg 2 (Zpos p) ltac:(lia) ltac:(lia)).
      change 0%Q with (inject_Z 0) in H.
      apply (proj1 (inject_Z_injective _ _)) in H. lia. }
    field. exact Hnz.
Qed.

(** A finite float within a quarter of the integer [K] of hundredths is
    written as [K / 100] with two decimals. *)
Lemma format_fixed_2_close (s : bool) (m : positive) (e : Z) (K : Z) :
  0 <= K ->
  (Qabs (inject_Z (Zpos m) * 2 ^ e * 100 - inject_Z K) <= 1 # 4)%Q ->
  format_fixed 2 (S754_finite s m e)
  = (if s then "-" else "") ++ render_fixed 2 (Z.to_N K).
Proof.
  intros HK Hc. unfold format_fixed.
  pose proof (fixed_fraction_value 2 m e) as Hv.
  destruct (fixed_fraction 2 m e) as [num den].
  change (inject_Z (10 ^ Z.of_nat 2)) with 100%Q in Hv.
  rewrite (round_half_even_close num den K _ Hv Hc). reflexivity.
Qed.

Lemma decode_value_display (s : numeric_signal) (raw : Z) :
  clamp_lo s <= raw <= clamp_hi s ->
  format_fixed 2 (decode_value s raw)
  = (if raw <? 0 then "-" else "")
    ++ render_fixed 2 (Z.to_N (Z.abs raw * (100 / scale s))).
Proof.
  intros Hr.
  destruct (Z.eq_dec raw 0) as [->|Hnz].
  { rewrite decode_value_zero. destruct s; reflexivity. }
  pose proof (decode_value_close s raw Hr) as Hc.
  pose proof (decode_value_finite s raw Hr) as Hfin.
  destruct (decode_value s raw) as [s0| | |sg m e] eqn:Ed;
    try discriminate Hfin.
  { (* a zero cannot be that close to a non-zero integer *)
    exfalso. apply Qabs_Qle_condition in Hc. cbn [F2Q] in Hc.
    change (1 # 2 ^ 44)%Q with (1 # 17592186044416)%Q in Hc.
    assert (Hone : (inject_Z raw <= - 1 \/ 1 <= inject_Z raw)%Q).
    { destruct (Z.lt_ge_cases raw 0) as [Hneg|Hpos].
      - left. change (- 1)%Q with (inject_Z (- 1)). rewrite <- Zle_Qle. lia.
      - right. change 1%Q with (inject_Z 1). rewrite <- Zle_Qle. lia. }
    destruct s; cbn [scale] in Hc;
      change (inject_Z 1) with 1%Q in Hc;
      change (inject_Z 10) with 10%Q in Hc;
      change (inject_Z 100) with 100%Q in Hc;
      destruct Hone; lra. }
  rewrite F2Q_finite in Hc. apply Qabs_Qle_condition in Hc.
  change (1 # 2 ^ 44)%Q with (1 # 17592186044416)%Q in Hc.
  assert (Hmag : (0 < inject_Z (Zpos m) * 2 ^ e)%Q).
  { apply Qmult_lt_0_compat; [|apply Qpower_2_pos].
    change 0%Q with (inject_Z 0). rewrite <- Zlt_Qlt. lia. }
  set (mag := (inject_Z (Zpos m) * 2 ^ e)%Q) in *.
  destruct (Z.ltb_spec raw 0) as [Hneg|Hpos].
  - assert (HrQ : (inject_Z raw <= - 1)%Q)
      by (change (- 1)%Q with (inject_Z (- 1)); rewrite <- Zle_Qle; lia).
    assert (Hsg : sg = true).
    { destruct sg; [reflexivity|]. exfalso.
      destruct s; cbn [scale] in Hc;
        change (inject_Z 1) with 1%Q in Hc;
        change (inject_Z 10) with 10%Q in Hc;
        change (inject_Z 100) with 100%Q in Hc; lra. }
    subst sg. apply format_fixed_2_close; [destruct s; cbn; lia|].
    fold mag. rewrite Z.abs_neq by lia.
    apply Qabs_Qle_condition.
    destruct s; cbn [scale] in *;
      [change (100 / 1) with 100 | change (100 / 10) with 10
      |change (100 / 100) with 1 | change (100 / 10) with 10
      |change (100 / 100) with 1];
      rewrite inject_Z_mult, inject_Z_opp;
      change (inject_Z 1) with 1%Q in *;
      change (inject_Z 10) with 10%Q in *;
      change (inject_Z 100) with 100%Q in *;
      split; lra.
  - assert (HrQ : (1 <= inject_Z raw)%Q)
      by (change 1%Q with (inject_Z 1); rewrite <- Zle_Qle; lia).
    assert (Hsg : sg = false).
    { destruct sg; [|reflexivity]. exfalso.
      destruct s; cbn [scale] in Hc;
        change (inject_Z 1) with 1%Q in Hc;
        change (inject_Z 10) with 10%Q in Hc;
        change (inject_Z 100) with 100%Q in Hc; lra. }
    subst sg. apply format_fixed_2_close; [destruct s; cbn; lia|].
    fold mag. rewrite Z.abs_eq by lia.
    apply Qabs_Qle_condition.
    destruct s; cbn [scale] in *;
      [change (100 / 1) with 100 | change (100 / 10) with 10
      |change (100 / 100) with 1 | change (100 / 10) with 10
      |change (100 / 100) with 1];
      rewrite inject_Z_mult;
      change (inject_Z 1) with 1%Q in *;
      change (inject_Z 10) with 10%Q in *;
      change (inject_Z 100) with 100%Q in *;
      split; lra.
Qed.

(** X9: the display is exact. For a payload an encoder can produce,
    [formatted_value] of the decoded frame writes the packed integer
    divided by the scale factor with two decimals, digit for digit,
    followed by the unit: the binary64 quotient never shows. *)
Theorem numeric_frame_display_exact :
  forall s b0 b1 raw frame,
    unpack s [b0; b1] = Ok raw ->
    clamp_lo s <= raw <= clamp_hi s ->
    decode_frame (signal_id s) [b0; b1] = Ok (Some frame) ->
    formatted_value frame
    = (if raw <? 0 then "-" else "")
      ++ render_fixed 2 (Z.to_N (Z.abs raw * (100 / scale s)))
      ++ " " ++ unit frame.
Proof.
  intros s b0 b1 raw frame Hu Hr Hd.
  destruct (decode_frame_value s b0 b1 raw Hu) as [frame' [Hd' Hv]].
  rewrite Hd in Hd'. injection Hd' as <-.
  assert (Hne : is_error frame = false).
  { rewrite decode_frame_numeric in Hd.
    change (firstn 2 [b0; b1]) with [b0; b1] in Hd. rewrite Hu in Hd.
    destruct s; injection Hd as <-; reflexivity. }
  unfold formatted_value. rewrite Hne, Hv, decode_value_display by exact Hr.
  destruct (raw <? 0); cbn [append]; reflexivity.
Qed.

Lemma numeric_frame_display_exact_witness :
  formatted_value (mkFrame CAN_ID_TEMP [x03; x37] "Motor Sıcaklığı"
                     (decode_value Temperature 823) "°C")
  = "82.30 °C".
Proof.
  apply (numeric_frame_display_exact Temperature x03 x37 823).
  - reflexivity.
  - cbn. lia.
  - vm_compute. reflexivity.
Defined.

(** * Node A *)

Lemma random_choice_two (pick : nat) :
  node_a.random_choice pick [ERROR_OVERCURRENT; ERROR_UNDERVOLTAGE]
  = ERROR_OVERCURRENT
  \/ node_a.random_choice pick [ERROR_OVERCURRENT; ERROR_UNDERVOLTAGE]
     = ERROR_UNDERVOLTAGE.
Proof.
  unfold node_a.random_choice. cbn [List.length].
  pose proof (Nat.mod_upper_bound pick 2 ltac:(lia)) as Hlt.
  destruct (pick mod 2)%nat as [|[|k]]; [left | right | lia]; reflexivity.
Qed.

Lemma error_flags_bits (temp_c current_a voltage_v rnd : float) (pick : nat) :
  0 <= node_a.error_flags temp_c current_a voltage_v rnd pick < 8.
Proof.
  unfold node_a.error_flags.
  destruct (random_choice_two pick) as [-> | ->];
    destruct (fgt temp_c node_a.float_80), (fgt current_a node_a.float_5),
      (flt voltage_v node_a.float_520), (flt rnd node_a.ERROR_PROB);
    vm_compute; split; (discriminate || reflexivity).
Qed.

(** X10: the flag byte of node A. Whatever the measurements and the
    random draws, [error_flags] sets no bit above bit 2, and the fault
    frame node B decodes from it lists overheating exactly when
    [temp_c > 80.0], and never a communication loss or an encoder
    fault. *)
Theorem error_flags_conditions :
  forall temp_c current_a voltage_v rnd pick,
    let flags := node_a.error_flags temp_c current_a voltage_v rnd pick in
    0 <= flags < 8
    /\ exists frame,
         decode_frame CAN_ID_ERROR (encode_error flags) = Ok (Some frame)
         /\ (In "AŞIRI ISINMA" (error_list frame)
             <-> fgt temp_c node_a.float_80 = true)
         /\ ~ In "İLETİŞİM KAYBI" (error_list frame)
         /\ ~ In "ENCODER HATASI" (error_list frame).
Proof.
  intros temp_c current_a voltage_v rnd pick flags.
  assert (H : 0 <= flags < 8
              /\ (In "AŞIRI ISINMA" (_parse_error_flags flags)
                  <-> fgt temp_c node_a.float_80 = true)
              /\ ~ In "İLETİŞİM KAYBI" (_parse_error_flags flags)
              /\ ~ In "ENCODER HATASI" (_parse_error_flags flags)).
  { split; [apply error_flags_bits|].
    unfold flags, node_a.error_flags.
    destruct (random_choice_two pick) as [-> | ->];
      destruct (fgt temp_c node_a.float_80), (fgt current_a node_a.float_5),
        (flt voltage_v node_a.float_520), (flt rnd node_a.ERROR_PROB);
      unfold ERROR_OVERHEAT, ERROR_OVERCURRENT, ERROR_UNDERVOLTAGE;
      cbn; repeat split; try discriminate;
      try (intros; tauto);
      try (intros Hin; repeat (destruct Hin as [Hin|Hin];
                               [discriminate Hin|]); contradiction). }
  destruct H as [Hb [Hoh [Hcl Hen]]].
  split; [exact Hb|].
  eexists. split; [apply decode_encode_error|].
  cbn [error_list]. auto.
Qed.

(** X11: node A sends a fault frame only for [flags != 0], and such a
    frame is never shown as "Sistem Normal" by node B: its error list is
    not empty. *)
Theorem sent_fault_frame_is_shown :
  forall temp_c current_a voltage_v rnd pick rpm temp torq volt curr msgs,
    let flags := node_a.error_flags temp_c current_a voltage_v rnd pick in
    node_a.sent_messages rpm temp torq volt curr flags = Ok msgs ->
    forall data, In (CAN_ID_ERROR, data) msgs ->
    exists frame,
      decode_frame CAN_ID_ERROR data = Ok (Some frame)
      /\ error_list frame <> []
      /\ formatted_value frame <> "Sistem Normal".
Proof.
  intros temp_c current_a voltage_v rnd pick rpm temp torq volt curr msgs
    flags Hs data Hin.
  destruct (error_flags_bits temp_c current_a voltage_v rnd pick) as [Hlo Hhi].
  fold flags in Hlo, Hhi.
  unfold node_a.sent_messages, node_a.frames_to_send in Hs.
  destruct (encode_rpm rpm) as [d1|]; [|discriminate Hs].
  destruct (encode_temp temp) as [d2|]; [|discriminate Hs].
  destruct (encode_torque torq) as [d3|]; [|discriminate Hs].
  destruct (encode_voltage volt) as [d4|]; [|discriminate Hs].
  destruct (encode_current curr) as [d5|]; [|discriminate Hs].
  cbn [bind map fst snd] in Hs. injection Hs as <-.
  cbn [app In] in Hin.
  repeat (destruct Hin as [Hin|Hin]; [discriminate Hin|]).
  destruct (Z.eqb_spec flags 0) as [Hz|Hnz]; cbn [negb In] in Hin;
    [contradiction|].
  destruct Hin as [Hin|[]]. injection Hin as <-.
  eexists. split; [apply decode_encode_error|].
  cbn [error_list].
  assert (Hne : _parse_error_flags flags <> []).
  { intros Hnil. apply parse_error_flags_nil in Hnil.
    assert (Hc : flags = 1 \/ flags = 2 \/ flags = 3 \/ flags = 4
                 \/ flags = 5 \/ flags = 6 \/ flags = 7) by lia.
    destruct Hc as [E|[E|[E|[E|[E|[E|E]]]]]]; rewrite E in Hnil;
      discriminate Hnil. }
  split; [exact Hne|].
  unfold formatted_value. cbn [is_error error_list].
  destruct (_parse_error_flags flags) as [|name names] eqn:Ep;
    [contradiction|].
  intros Hs.
  rewrite parse_error_flags_spec in Ep.
  unfold decode_bits_spec, named_bits in Ep. cbn [filter] in Ep.
  destruct (Z.testbit flags 0), (Z.testbit flags 1), (Z.testbit flags 2),
    (Z.testbit flags 3), (Z.testbit flags 4);
    cbn in Ep; try discriminate Ep;
    injection Ep as <- <-; cbn in Hs; discriminate Hs.
Qed.

Lemma sent_fault_frame_is_shown_witness :
  exists frame,
    decode_frame CAN_ID_ERROR [x01] = Ok (Some frame)
    /\ error_list frame <> []
    /\ formatted_value frame <> "Sistem Normal".
Proof.
  apply (sent_fault_frame_is_shown
           float_82_3 float_0_58 node_a.float_520 float_0_58 0%nat
           float_82_3 float_82_3 float_0_58 node_a.float_520 float_0_58
           [(CAN_ID_RPM, [x00; x52]); (CAN_ID_TEMP, [x03; x37]);
            (CAN_ID_TORQUE, [x00; x39]); (CAN_ID_VOLTAGE, [x14; x50]);
            (CAN_ID_CURRENT, [x00; x39]); (CAN_ID_ERROR, [x01])]).
  - vm_compute. reflexivity.
  - do 5 right. left. reflexivity.
Defined.

Lemma decode_two_bytes (s : numeric_signal) (b0 b1 : byte) :
  exists frame,
    decode_frame (signal_id s) [b0; b1] = Ok (Some frame)
    /\ can_id frame = signal_id s /\ raw_bytes frame = [b0; b1].
Proof.
  rewrite decode_frame_numeric. change (firstn 2 [b0; b1]) with [b0; b1].
  destruct s; eexists; (split; [reflexivity|]); split; reflexivity.
Qed.

(** X12: every message node A hands to the bus in one pass of its main
    loop is decoded by node B: [decode_frame] returns a frame, never
    [None], with the identifier and the payload that were sent. A pass
    sends five messages, and a sixth when [flags != 0]. *)
Theorem sent_messages_all_decode :
  forall rpm temp torq volt curr flags msgs,
    node_a.sent_messages rpm temp torq volt curr flags = Ok msgs ->
    List.length msgs = (if flags =? 0 then 5%nat else 6%nat)
    /\ forall i data, In (i, data) msgs ->
         exists frame,
           decode_frame i data = Ok (Some frame)
           /\ can_id frame = i /\ raw_bytes frame = data.
Proof.
  intros rpm temp torq volt curr flags msgs Hs.
  unfold node_a.sent_messages, node_a.frames_to_send in Hs.
  destruct (encode_rpm rpm) as [d1|] eqn:E1; [|discriminate Hs].
  destruct (encode_temp temp) as [d2|] eqn:E2; [|discriminate Hs].
  destruct (encode_torque torq) as [d3|] eqn:E3; [|discriminate Hs].
  destruct (encode_voltage volt) as [d4|] eqn:E4; [|discriminate Hs].
  destruct (encode_current curr) as [d5|] eqn:E5; [|discriminate Hs].
  cbn [bind map fst snd] in Hs. injection Hs as <-.
  destruct (encode_ok_two_bytes Rpm rpm d1 E1) as [a0 [a1 ->]].
  destruct (encode_ok_two_bytes Temperature temp d2 E2) as [b0 [b1 ->]].
  destruct (encode_ok_two_bytes Torque torq d3 E3) as [c0 [c1 ->]].
  destruct (encode_ok_two_bytes Voltage volt d4 E4) as [e0 [e1 ->]].
  destruct (encode_ok_two_bytes Current curr d5 E5) as [f0 [f1 ->]].
  split.
  - destruct (flags =? 0); reflexivity.
  - intros i data Hin. cbn [app In] in Hin.
    destruct Hin as [Hin|[Hin|[Hin|[Hin|[Hin|Hin]]]]];
      try (injection Hin as <- <-).
    + apply (decode_two_bytes Rpm).
    + apply (decode_two_bytes Temperature).
    + apply (decode_two_bytes Torque).
    + apply (decode_two_bytes Voltage).
    + apply (decode_two_bytes Current).
    + destruct (flags =? 0); cbn [negb In] in Hin; [contradiction|].
      destruct Hin as [Hin|[]]. injection Hin as <- <-.
      eexists. split; [apply decode_encode_error|].
      split; reflexivity.
Qed.

Lemma sent_messages_all_decode_witness :
  List.length
    [(CAN_ID_RPM, [x00; x52]); (CAN_ID_TEMP, [x03; x37]);
     (CAN_ID_TORQUE, [x00; x39]); (CAN_ID_VOLTAGE, [x14; x50]);
     (CAN_ID_CURRENT, [x00; x39]); (CAN_ID_ERROR, [x01])]
  = (if 1 =? 0 then 5%nat else 6%nat).
Proof.
  apply (sent_messages_all_decode
           float_82_3 float_82_3 float_0_58 node_a.float_520 float_0_58 1).
  vm_compute. reflexivity.
Defined.

(** * Node B *)

Lemma deque_append_length (n : nat) (q : list float) (x : float) :
  (1 <= n)%nat -> (List.length q <= n)%nat ->
  List.length (node_b.deque_append n q x)
  = Nat.min (List.length q + 1) n.
Proof.
  intros Hn Hq. unfold node_b.deque_append.
  destruct (Nat.ltb_spec (List.length q) n) as [Hlt|Hge].
  - rewrite length_app. cbn [List.length]. lia.
  - destruct q as [|y q]; [cbn in Hge; lia|].
    cbn [app tl]. rewrite length_app. cbn [List.length] in *. lia.
Qed.

Lemma deque_append_last (n : nat) (q : list float) (x d : float) :
  (1 <= n)%nat -> last (node_b.deque_append n q x) d = x.
Proof.
  intros Hn. unfold node_b.deque_append.
  destruct (Nat.ltb_spec (List.length q) n) as [Hlt|Hge].
  - apply last_last.
  - destruct q as [|y q]; [cbn in Hge; lia|].
    cbn [app tl]. destruct q as [|z q]; [reflexivity|].
    change ((z :: q) ++ [x])%list with (z :: (q ++ [x]))%list.
    rewrite <- (last_last (z :: q) x d) at 2.
    reflexivity.
Qed.

Lemma push_keeps_inv (st : node_b.DataStore) (i : Z) (v t : float) :
  store_inv st -> store_inv (node_b.push st i v t).
Proof.
  unfold store_inv. intros [Ht [H1 [H2 [H3 [H4 [H5 [L1 [L2 [L3 [L4 L5]]]]]]]]]].
  assert (Hmax : (1 <= node_b.MAX_POINTS)%nat)
    by (unfold node_b.MAX_POINTS; lia).
  unfold node_b.push.
  repeat match goal with
  | |- context [i =? ?c] => destruct (i =? c)
  end;
  cbn [node_b.times node_b.rpm node_b.temp node_b.torque node_b.current
       node_b.voltage node_b.latest node_b.latest_rpm node_b.latest_temp
       node_b.latest_torque node_b.latest_current node_b.latest_voltage
       node_b.count_frame];
  rewrite ?deque_append_length, ?deque_append_last by lia;
  repeat split; try assumption; try lia.
Qed.

Lemma push_counters (st : node_b.DataStore) (i : Z) (v t : float) :
  node_b.total_frames (node_b.latest (node_b.push st i v t))
  = node_b.total_frames (node_b.latest st) + 1
  /\ node_b.error_frames (node_b.latest (node_b.push st i v t))
     = node_b.error_frames (node_b.latest st)
       + (if i =? CAN_ID_ERROR then 1 else 0).
Proof.
  unfold node_b.push.
  repeat match goal with
  | |- context [if i =? ?c then _ else _] =>
      destruct (Z.eqb_spec i c) as [->|?]
  end; cbn; split; lia.
Qed.

Lemma put_nowait_bounded (q : list node_b.log_entry) (item : node_b.log_entry) :
  (List.length q <= node_b.LOG_QUEUE_MAXSIZE)%nat ->
  (List.length
     match node_b.put_nowait node_b.LOG_QUEUE_MAXSIZE q item with
     | Some q' => q'
     | None => q
     end <= node_b.LOG_QUEUE_MAXSIZE)%nat.
Proof.
  intros Hq. unfold node_b.put_nowait.
  destruct (Nat.ltb_spec (List.length q) node_b.LOG_QUEUE_MAXSIZE);
    [rewrite length_app; cbn [List.length]; lia | assumption].
Qed.

(** One pass of the receive loop never raises; a message that does not
    decode changes nothing, a decoded one is pushed and logged unless the
    queue is full. *)
Lemma listener_step_cases (st : node_b.DataStore) (q : list node_b.log_entry)
  (i : Z) (data : list byte) (t : float) :
  (decodable (i, data, t) = false
   /\ node_b.listener_step (st, q) (i, data, t) = Ok (st, q))
  \/ (exists frame entry,
        decodable (i, data, t) = true
        /\ decode_frame i data = Ok (Some frame)
        /\ node_b.listener_step (st, q) (i, data, t)
           = Ok (node_b.push st i (value frame) t,
                 match node_b.put_nowait node_b.LOG_QUEUE_MAXSIZE q entry with
                 | Some q' => q'
                 | None => q
                 end)).
Proof.
  unfold decodable, node_b.listener_step. cbn [fst snd].
  destruct (decode_frame_never_raises i data) as [r Hr]. rewrite Hr.
  cbn [bind]. destruct r as [frame|].
  - right.
    exists frame,
      ("FRAME", i, data, formatted_value frame,
       is_error frame
       && match error_list frame with [] => false | _ => true end).
    split; [reflexivity|]. split; [reflexivity|].
    destruct (node_b.put_nowait _ q _); reflexivity.
  - left. split; reflexivity.
Qed.

(** X13: the store of node B stays well formed. From a well-formed store
    and a log queue within its size, the receive loop over any sequence of
    messages returns, and leaves the time axis as long as the rpm series,
    every series within [MAX_POINTS] items and ending with the value in
    [latest], and the log queue within 500 items. A new store is well
    formed. *)
Theorem listener_keeps_store_well_formed :
  store_inv node_b.new_store
  /\ forall msgs st q,
       store_inv st -> (List.length q <= node_b.LOG_QUEUE_MAXSIZE)%nat ->
       exists st' q',
         node_b.listener_run (st, q) msgs = Ok (st', q')
         /\ store_inv st'
         /\ (List.length q' <= node_b.LOG_QUEUE_MAXSIZE)%nat.
Proof.
  split.
  - unfold store_inv, node_b.new_store, node_b.MAX_POINTS. cbn.
    repeat split; lia.
  - induction msgs as [|[[i data] t] msgs IH]; intros st q Hinv Hq.
    + exists st, q. cbn. auto.
    + cbn [node_b.listener_run].
      destruct (listener_step_cases st q i data t)
        as [[_ Hs]|[frame [entry [_ [_ Hs]]]]]; rewrite Hs; cbn [bind].
      * apply IH; assumption.
      * apply IH; [apply push_keeps_inv; assumption|].
        apply put_nowait_bounded. assumption.
Qed.

Lemma listener_keeps_store_well_formed_witness :
  exists st' q',
    node_b.listener_run (node_b.new_store, [])
      [(CAN_ID_RPM, [x05; xdc], S754_zero false)] = Ok (st', q')
    /\ store_inv st'
    /\ (List.length q' <= node_b.LOG_QUEUE_MAXSIZE)%nat.
Proof.
  apply (proj2 listener_keeps_store_well_formed).
  - exact (proj1 listener_keeps_store_well_formed).
  - apply Nat.le_0_l.
Defined.

Lemma fault_message_decodable (msg : Z * list byte * float) :
  is_fault_message msg = true -> decodable msg = true.
Proof.
  destruct msg as [[i data] t]. unfold is_fault_message, decodable.
  cbn [fst snd]. intros H. apply Z.eqb_eq in H. subst i.
  rewrite decode_frame_error. reflexivity.
Qed.

(** X14: what the counters count. After the receive loop has run over a
    sequence of messages, [total_frames] has grown by the number of
    messages that decode (unknown identifiers and short payloads are not
    counted) and [error_frames] by the number of messages with the fault
    identifier, whatever their payload. *)
Theorem listener_counts_frames :
  forall msgs st q,
    exists st' q',
      node_b.listener_run (st, q) msgs = Ok (st', q')
      /\ node_b.total_frames (node_b.latest st')
         = node_b.total_frames (node_b.latest st)
           + Z.of_nat (List.length (filter decodable msgs))
      /\ node_b.error_frames (node_b.latest st')
         = node_b.error_frames (node_b.latest st)
           + Z.of_nat (List.length (filter is_fault_message msgs)).
Proof.
  induction msgs as [|[[i data] t] msgs IH]; intros st q.
  - exists st, q. cbn. split; [reflexivity|]. split; lia.
  - cbn [node_b.listener_run filter].
    destruct (listener_step_cases st q i data t)
      as [[Hd Hs]|[frame [entry [Hd [_ Hs]]]]]; rewrite Hs, Hd; cbn [bind].
    + assert (Hf : is_fault_message (i, data, t) = false).
      { destruct (is_fault_message (i, data, t)) eqn:E; [|reflexivity].
        apply fault_message_decodable in E. congruence. }
      rewrite Hf. apply IH.
    + destruct (IH (node_b.push st i (value frame) t)
                  match node_b.put_nowait node_b.LOG_QUEUE_MAXSIZE q entry with
                  | Some q' => q'
                  | None => q
                  end) as [st' [q' [Hr [Ht He]]]].
      exists st', q'. split; [exact Hr|].
      destruct (push_counters st i (value frame) t) as [Pt Pe].
      rewrite Ht, He, Pt, Pe. unfold is_fault_message. cbn [fst snd].
      destruct (i =? CAN_ID_ERROR); cbn [List.length]; split; lia.
Qed.
